(** * replace_alerts.py: alert-to-toast rewriting, verified

    A shallow embedding of [src/replace_alerts.py] and the properties of its
    four operations: [add_toast_import] (importEnsure), [replace_alerts]
    (callSiteReplace), [process_file] (processFile) and [main] (run).

    A Python [str] is a sequence of Unicode code points; it is modelled as a
    list of code points ([N]).  The two regular expressions of the script are
    embedded as the backtracking matchers they denote. *)

From Stdlib Require Import String Ascii DecimalString.
From Stdlib Require Import List NArith Arith Lia Bool.
Import ListNotations.

(* ================================================================= *)
(** ** Python strings *)

Module PyStr.

(** A code point. *)
Definition char : Type := N.

(** A Python [str]. *)
Definition str : Type := list char.

(** The code points of an ASCII literal. *)
Definition cp (s : string) : str :=
  map N_of_ascii (list_ascii_of_string s).

Definition nl : char := 10%N.

Definition is_nl (c : char) : bool := N.eqb c nl.

(** [s.startswith(p)]. *)
Fixpoint starts_with (p s : str) : bool :=
  match p, s with
  | [], _ => true
  | _ :: _, [] => false
  | a :: p', b :: s' => N.eqb a b && starts_with p' s'
  end.

(** [p in s]. *)
Fixpoint contains (p s : str) : bool :=
  match s with
  | [] => starts_with p []
  | _ :: s' => starts_with p s || contains p s'
  end.

(** The number of positions of [s] at which [p] occurs. *)
Fixpoint occurrences (p s : str) : nat :=
  match s with
  | [] => if starts_with p [] then 1 else 0
  | _ :: s' => (if starts_with p s then 1 else 0) + occurrences p s'
  end.

(** No occurrence of [p] in [x ++ y] starts within [x]. *)
Fixpoint none_starts_in (p x y : str) : bool :=
  match x with
  | [] => true
  | _ :: x' => negb (starts_with p (x ++ y)) && none_starts_in p x' y
  end.

(** [s.replace(old, new)] for a non-empty [old]: every occurrence of [old],
    found from the left and not overlapping an earlier one, becomes [new].
    [skip] counts the code points of the occurrence being replaced that are
    still to be dropped. *)
Fixpoint replace_go (old new : str) (skip : nat) (s : str) : str :=
  match s with
  | [] => []
  | c :: s' =>
      match skip with
      | S k => replace_go old new k s'
      | O =>
          if starts_with old s
          then new ++ replace_go old new (length old - 1) s'
          else c :: replace_go old new 0 s'
      end
  end.

(** [s.replace(old, new)]; with an empty [old] Python puts [new] before
    every code point and at the end. *)
Definition replace (old new s : str) : str :=
  match old with
  | [] => new ++ flat_map (fun c => c :: new) s
  | _ :: _ => replace_go old new 0 s
  end.

(** [s.split('\n')]. *)
Fixpoint split_nl (s : str) : list str :=
  match s with
  | [] => [[]]
  | c :: s' =>
      if is_nl c then [] :: split_nl s'
      else match split_nl s' with
           | l :: ls => (c :: l) :: ls
           | [] => [[c]]
           end
  end.

(** ['\n'.join(ls)]. *)
Fixpoint join_nl (ls : list str) : str :=
  match ls with
  | [] => []
  | [l] => l
  | l :: ls' => l ++ nl :: join_nl ls'
  end.

(** [s.lower()], as far as an ASCII needle can tell: the ASCII capitals are
    lowered; U+0130 lowers to [i] followed by U+0307 and U+212A (the Kelvin
    sign) to [k]; every other code point lowers to code points outside
    ASCII and is kept as it is. *)
Definition lower_char (c : char) : str :=
  if (N.leb 65 c && N.leb c 90)%bool then [(c + 32)%N]
  else if N.eqb c 304 then [105%N; 775%N]
  else if N.eqb c 8490 then [107%N]
  else [c].

Definition lower (s : str) : str := flat_map lower_char s.

(** The code points [\s] matches in a [str] pattern (those for which
    [str.isspace] holds). *)
Definition is_space (c : char) : bool :=
  (N.leb 9 c && N.leb c 13) || (N.leb 28 c && N.leb c 32)
  || N.eqb c 133 || N.eqb c 160 || N.eqb c 5760
  || (N.leb 8192 c && N.leb c 8202)
  || N.eqb c 8232 || N.eqb c 8233 || N.eqb c 8239 || N.eqb c 8287
  || N.eqb c 12288.

(** [str(n)] for a non-negative integer. *)
Definition str_of_nat (n : nat) : str :=
  cp (NilEmpty.string_of_uint (Nat.to_uint n)).

End PyStr.
Import PyStr.

(* ================================================================= *)
(** ** The two regular expressions *)

Module Regex.

(** [(.*?)\)] : the lazy group takes as few code points as it can, none of
    them a newline, up to a closing parenthesis; the result is the group. *)
Fixpoint lazy_to_rparen (s : str) : option str :=
  match s with
  | [] => None
  | c :: s' =>
      if N.eqb c 41 then Some []
      else if is_nl c then None
      else option_map (cons c) (lazy_to_rparen s')
  end.

(** [alert\((.*?)\);?] tried at the start of [s]; the result is group 1.
    The optional semicolon only lengthens the span, which the script does
    not read. *)
Definition alert_match_here (s : str) : option str :=
  if starts_with (cp "alert(") s then lazy_to_rparen (skipn 6 s) else None.

(** [re.search(r'alert\((.*?)\);?', s)]: the leftmost position with a
    match; the result is [match.group(1)]. *)
Fixpoint search_alert (s : str) : option str :=
  match alert_match_here s with
  | Some m => Some m
  | None =>
      match s with
      | [] => None
      | _ :: s' => search_alert s'
      end
  end.

(** [$] in multi-line mode: at the end of the string or just before a
    newline. *)
Definition at_eol (s : str) : bool :=
  match s with
  | [] => true
  | c :: _ => is_nl c
  end.

(** [.*?;$] : the lazy star takes as few code points as it can, none of
    them a newline, up to a semicolon that ends its line; the result is the
    number of code points matched. *)
Fixpoint lazy_to_semi_eol (s : str) : option nat :=
  match s with
  | [] => None
  | c :: s' =>
      if N.eqb c 59 && at_eol s' then Some 1
      else if is_nl c then None
      else option_map S (lazy_to_semi_eol s')
  end.

(** [\s+.*?;$] : the greedy plus first takes every white-space code point
    it can and gives them back one at a time when the rest fails. *)
Fixpoint spaces_to_semi_eol (s : str) : option nat :=
  match s with
  | [] => None
  | c :: s' =>
      if is_space c then
        match spaces_to_semi_eol s' with
        | Some n => Some (S n)
        | None => option_map S (lazy_to_semi_eol s')
        end
      else None
  end.

(** [import\s+.*?;$] tried at the start of [s], which is at the start of a
    line; the result is the length of the match. *)
Definition import_match_here (s : str) : option nat :=
  if starts_with (cp "import") s
  then option_map (Nat.add 6) (spaces_to_semi_eol (skipn 6 s))
  else None.

(** [re.finditer(r'^import\s+.*?;$', content, re.MULTILINE)] from offset
    [pos]: the spans [(start, end)] of the matches, from the left, none
    overlapping an earlier one.  [bol] tells whether [^] matches at [pos];
    [skip] counts the code points of the last match still to be passed. *)
Fixpoint finditer_import_go (bol : bool) (skip pos : nat) (s : str)
  : list (nat * nat) :=
  match s with
  | [] => []
  | c :: s' =>
      match skip with
      | S k => finditer_import_go (is_nl c) k (S pos) s'
      | O =>
          match (if bol then import_match_here s else None) with
          | Some n =>
              (pos, pos + n) :: finditer_import_go (is_nl c) (n - 1) (S pos) s'
          | None => finditer_import_go (is_nl c) 0 (S pos) s'
          end
      end
  end.

Definition finditer_import (content : str) : list (nat * nat) :=
  finditer_import_go true 0 0 content.

End Regex.
Import Regex.

(* ================================================================= *)
(** ** importEnsure *)

Definition toast_import_line : str :=
  cp "import { toast } from '../shared/utils/toast';".

(** ["\nimport { toast } from '../shared/utils/toast';"]. *)
Definition toast_import : str := nl :: toast_import_line.

Definition add_toast_import (content : str) : str :=
  if contains (cp "import { toast }") content
     || contains (cp "import toast") content
  then content
  else
    let imports := finditer_import content in
    match imports with
    | [] => content
    | _ :: _ =>
        let last_import := last imports (0, 0) in
        let insert_pos := snd last_import in
        firstn insert_pos content ++ toast_import ++ skipn insert_pos content
    end.

(* ================================================================= *)
(** ** callSiteReplace *)

Inductive severity : Type := Success | Error | Info.

Definition severity_name (v : severity) : str :=
  match v with
  | Success => cp "success"
  | Error => cp "error"
  | Info => cp "info"
  end.

Definition success_keywords : list str :=
  map cp ["success"; "updated"; "saved"; "created"; "posted"; "submitted";
          "copied"; "closed"; "depreciated"]%string.

Definition is_success (line : str) : bool :=
  existsb (fun keyword => contains keyword (lower line)) success_keywords.

Definition is_error (line : str) : bool :=
  contains (cp "fail") (lower line) || contains (cp "error") (lower line)
  || contains (cp "warning") (lower line).

(** The severity the three branches on [is_success] and [is_error] select. *)
Definition classify (line : str) : severity :=
  if is_success line && negb (is_error line) then Success
  else if is_error line then Error
  else Info.

(** [f'alert({message})']. *)
Definition alert_call (message : str) : str :=
  cp "alert(" ++ message ++ cp ")".

(** [f'toast.<severity>({message})']. *)
Definition toast_call (v : severity) (message : str) : str :=
  cp "toast." ++ severity_name v ++ cp "(" ++ message ++ cp ")".

(** A string literal in double quotes. *)
Definition string_literal (text : str) : str := 34%N :: text ++ [34%N].

(** The body of the loop over the lines. *)
Definition replace_alerts_line (line : str) : str :=
  if contains (cp "alert(") line && negb (contains (cp "// alert(") line)
  then
    match search_alert line with
    | Some message =>
        if is_success line && negb (is_error line)
        then replace (alert_call message) (toast_call Success message) line
        else if is_error line
        then replace (alert_call message) (toast_call Error message) line
        else replace (alert_call message) (toast_call Info message) line
    | None => line
    end
  else line.

Definition replace_alerts (content : str) : str :=
  join_nl (map replace_alerts_line (split_nl content)).

(* ================================================================= *)
(** ** processFile and run *)

(** The outcome of a step that may raise an exception; [Raise] carries
    [str(e)]. *)
Inductive result (A : Type) : Type :=
| Ok (a : A)
| Raise (message : str).

Arguments Ok {A} a.
Arguments Raise {A} message.

(** What the script asks of the file system.  [fs] is the state of the
    disk.  Reading leaves the disk as it is; writing opens the file for
    writing, which already truncates it, so the disk may change even when
    the write raises. *)
Class FileSystem (fs : Type) : Type := {
  (** [open(path, 'r', encoding='utf-8')] followed by [f.read()] *)
  read_text : str -> fs -> result str;
  (** [open(path, 'w', encoding='utf-8')] followed by [f.write(content)] *)
  write_text : str -> str -> fs -> fs * result unit;
  (** [os.path.exists(path)] *)
  path_exists : str -> fs -> bool
}.

Definition check_mark : char := 10003%N.
Definition cross_mark : char := 10007%N.

(** [f"✓ Processed: {filepath}"]. *)
Definition msg_processed (filepath : str) : str :=
  check_mark :: cp " Processed: " ++ filepath.

(** [f"✗ Error processing {filepath}: {e}"]. *)
Definition msg_error (filepath e : str) : str :=
  cross_mark :: cp " Error processing " ++ filepath ++ cp ": " ++ e.

(** [f"✗ File not found: {filepath}"]. *)
Definition msg_not_found (filepath : str) : str :=
  cross_mark :: cp " File not found: " ++ filepath.

Definition msg_starting : str := cp "Starting alert to toast replacement...".

(** [f"\nCompleted! Processed {success_count}/{len(files_to_update)} files"]. *)
Definition msg_completed (success_count total : nat) : str :=
  nl :: cp "Completed! Processed " ++ str_of_nat success_count ++ cp "/"
     ++ str_of_nat total ++ cp " files".

Section Script.

Context {fs : Type} `{FileSystem fs}.

(** The [try] block with its two in-memory steps left open: each of them
    may raise.  The result is the disk afterwards, the lines printed and
    the value returned. *)
Definition process_file_with (import_step replace_step : str -> result str)
    (filepath : str) (disk : fs) : fs * list str * bool :=
  match read_text filepath disk with
  | Raise e => (disk, [msg_error filepath e], false)
  | Ok content =>
      match import_step content with
      | Raise e => (disk, [msg_error filepath e], false)
      | Ok content1 =>
          match replace_step content1 with
          | Raise e => (disk, [msg_error filepath e], false)
          | Ok content2 =>
              match write_text filepath content2 disk with
              | (disk', Raise e) => (disk', [msg_error filepath e], false)
              | (disk', Ok _) => (disk', [msg_processed filepath], true)
              end
          end
      end
  end.

(** [process_file]: the two steps are [add_toast_import] and
    [replace_alerts], which return on every input. *)
Definition process_file : str -> fs -> fs * list str * bool :=
  process_file_with (fun content => Ok (add_toast_import content))
                    (fun content => Ok (replace_alerts content)).

(** The state of the loop of [main]: the disk, the lines printed so far
    and [success_count]. *)
Definition loop_state : Type := fs * list str * nat.

(** One turn of the loop of [main]. *)
Definition main_step (st : loop_state) (filepath : str) : loop_state :=
  let '(disk, out, success_count) := st in
  if path_exists filepath disk then
    let '(disk', printed, ok) := process_file filepath disk in
    (disk', out ++ printed, if ok then S success_count else success_count)
  else (disk, out ++ [msg_not_found filepath], success_count).

(** [main] over a given list of files: the disk afterwards and the lines
    printed. *)
Definition run (files : list str) (disk : fs) : fs * list str :=
  let '(disk', out, success_count) :=
    fold_left main_step files (disk, [msg_starting], 0) in
  (disk', out ++ [msg_completed success_count (length files)]).

End Script.

Definition files_to_update : list str :=
  map cp
    ["/Users/buntha/Documents/AI/ds-advance/components/customer/CustomerDashboard.tsx";
     "/Users/buntha/Documents/AI/ds-advance/components/customer/TrackingTimeline.tsx";
     "/Users/buntha/Documents/AI/ds-advance/components/customer/CustomerProfile.tsx";
     "/Users/buntha/Documents/AI/ds-advance/components/fixed_assets/AssetCategoryForm.tsx";
     "/Users/buntha/Documents/AI/ds-advance/components/fixed_assets/AssetForm.tsx";
     "/Users/buntha/Documents/AI/ds-advance/components/fixed_assets/FixedAssetsDashboard.tsx";
     "/Users/buntha/Documents/AI/ds-advance/components/closing/ClosingDashboard.tsx";
     "/Users/buntha/Documents/AI/ds-advance/components/UserList.tsx";
     "/Users/buntha/Documents/AI/ds-advance/components/staff/StaffLoansDashboard.tsx";
     "/Users/buntha/Documents/AI/ds-advance/components/staff/EmployeeList.tsx";
     "/Users/buntha/Documents/AI/ds-advance/components/payables/VendorList.tsx";
     "/Users/buntha/Documents/AI/ds-advance/components/wallet/WalletDashboard.tsx";
     "/Users/buntha/Documents/AI/ds-advance/components/setup/OnboardingWizard.tsx";
     "/Users/buntha/Documents/AI/ds-advance/components/LandingPage.tsx";
     "/Users/buntha/Documents/AI/ds-advance/components/banking/WalletRequests.tsx";
     "/Users/buntha/Documents/AI/ds-advance/src/app/views/JournalView.tsx"]%string.

Definition main {fs : Type} `{FileSystem fs} (disk : fs) : fs * list str :=
  run files_to_update disk.

(** A disk in memory, to run the script on, as a POSIX system presents it
    to Python: flat, with exact path names.  Each path has the text its
    bytes decode to as UTF-8, and whether it may be read and written. *)
Module MemDisk.

Record file : Type := {
  text : str;
  readable : bool;
  writable : bool
}.

Definition disk : Type := list (str * file).

Definition str_eqb (a b : str) : bool :=
  Nat.eqb (length a) (length b) && starts_with a b.

Fixpoint lookup (path : str) (d : disk) : option file :=
  match d with
  | [] => None
  | (p, f) :: d' => if str_eqb p path then Some f else lookup path d'
  end.

Fixpoint store (path content : str) (d : disk) : disk :=
  match d with
  | [] => [(path, {| text := content; readable := true; writable := true |})]
  | (p, f) :: d' =>
      if str_eqb p path
      then (p, {| text := content; readable := readable f;
                  writable := writable f |}) :: d'
      else (p, f) :: store path content d'
  end.

(** A lower-case hexadecimal digit. *)
Definition hex_digit (n : N) : char :=
  if N.ltb n 10 then (48 + n)%N else (87 + n)%N.

(** The last [k] hexadecimal digits of [n]. *)
Fixpoint hex (k : nat) (n : N) : str :=
  match k with
  | O => []
  | S k' => hex k' (n / 16) ++ [hex_digit (n mod 16)]
  end.

(** One code point inside [repr(s)] with [quote] as the quote: backslash,
    the quote, tab, line feed and carriage return get a backslash; the
    other code points that are not printable up to U+00FF (the controls,
    U+007F to U+00A0 and U+00AD) are written in hexadecimal; code points
    above U+00FF are taken as printable. *)
Definition repr_char (quote c : char) : str :=
  if N.eqb c 92 then [92%N; 92%N]
  else if N.eqb c quote then [92%N; quote]
  else if N.eqb c 9 then cp "\t"
  else if N.eqb c 10 then cp "\n"
  else if N.eqb c 13 then cp "\r"
  else if N.ltb c 32 || (N.leb 127 c && N.leb c 160) || N.eqb c 173
  then cp "\x" ++ hex 2 c
  else [c].

(** [repr(s)]: in single quotes, or in double quotes when [s] has a single
    quote and no double quote. *)
Definition repr (s : str) : str :=
  let quote :=
    if existsb (N.eqb 39) s && negb (existsb (N.eqb 34) s)
    then 34%N else 39%N in
  quote :: flat_map (repr_char quote) s ++ [quote].

(** [str(e)] for the [OSError] that [open] raises on [path]. *)
Definition no_such_file (path : str) : str :=
  cp "[Errno 2] No such file or directory: " ++ repr path.

Definition permission_denied (path : str) : str :=
  cp "[Errno 13] Permission denied: " ++ repr path.

(** What text mode does to the line ends when it reads: [\r\n] and a lone
    [\r] both become [\n]. *)
Fixpoint universal_newlines (s : str) : str :=
  match s with
  | [] => []
  | c :: s' =>
      if N.eqb c 13 then
        match s' with
        | d :: s'' =>
            if N.eqb d 10 then nl :: universal_newlines s''
            else nl :: universal_newlines s'
        | [] => [nl]
        end
      else c :: universal_newlines s'
  end.

(** A surrogate cannot be encoded as UTF-8. *)
Definition is_surrogate (c : char) : bool :=
  N.leb 55296 c && N.leb c 57343.

(** How many surrogates [s] begins with. *)
Fixpoint surrogate_run (s : str) : nat :=
  match s with
  | [] => 0
  | c :: s' => if is_surrogate c then S (surrogate_run s') else 0
  end.

(** The first run of surrogates in [s], from offset [pos] on: where it
    begins, its first code point and how many there are. *)
Fixpoint first_surrogates (pos : nat) (s : str) : option (nat * char * nat) :=
  match s with
  | [] => None
  | c :: s' =>
      if is_surrogate c then Some (pos, c, S (surrogate_run s'))
      else first_surrogates (S pos) s'
  end.

(** [str(e)] for the [UnicodeEncodeError] of the UTF-8 codec. *)
Definition cannot_encode (start : nat) (c : char) (count : nat) : str :=
  match count with
  | 1 =>
      cp "'utf-8' codec can't encode character '\u" ++ hex 4 c
        ++ cp "' in position " ++ str_of_nat start
        ++ cp ": surrogates not allowed"
  | _ =>
      cp "'utf-8' codec can't encode characters in position "
        ++ str_of_nat start ++ cp "-" ++ str_of_nat (start + count - 1)
        ++ cp ": surrogates not allowed"
  end.

(** [open(path, 'r', encoding='utf-8')] and [f.read()]. *)
Definition read (path : str) (d : disk) : result str :=
  match lookup path d with
  | None => Raise (no_such_file path)
  | Some f =>
      if readable f then Ok (universal_newlines (text f))
      else Raise (permission_denied path)
  end.

(** [open(path, 'w', encoding='utf-8')] and [f.write(content)]: opening
    creates the file or empties it; a text that cannot be encoded raises
    after that and leaves the file empty. *)
Definition write (path content : str) (d : disk) : disk * result unit :=
  match lookup path d with
  | Some f =>
      if writable f then
        match first_surrogates 0 content with
        | Some (start, c, count) =>
            (store path [] d, Raise (cannot_encode start c count))
        | None => (store path content d, Ok tt)
        end
      else (d, Raise (permission_denied path))
  | None =>
      match first_surrogates 0 content with
      | Some (start, c, count) =>
          (store path [] d, Raise (cannot_encode start c count))
      | None => (store path content d, Ok tt)
      end
  end.

Definition exists_ (path : str) (d : disk) : bool :=
  match lookup path d with
  | Some _ => true
  | None => false
  end.

#[global] Instance mem_fs : FileSystem disk := {
  read_text := read;
  write_text := write;
  path_exists := exists_
}.

End MemDisk.

(* ================================================================= *)
(** ** importEnsure as the specification words it *)

Module BySpec.

(** A line that matches [import <anything>;] from its start: the word
    [import], white space, and a semicolon at the end of the line. *)
Definition is_import_line (l : str) : bool :=
  starts_with (cp "import") l
  && match skipn 6 l with
     | c :: _ => is_space c
     | [] => false
     end
  && N.eqb (last l 0%N) 59.

(** The index of the last line for which [f] holds. *)
Fixpoint last_index (f : str -> bool) (ls : list str) : option nat :=
  match ls with
  | [] => None
  | l :: ls' =>
      match last_index f ls' with
      | Some j => Some (S j)
      | None => if f l then Some 0 else None
      end
  end.

(** The new import line put right after the last import line; the
    content as it is when it has the toast import or no import line. *)
Definition importEnsure (content : str) : str :=
  if contains (cp "import { toast }") content
     || contains (cp "import toast") content
  then content
  else
    let ls := split_nl content in
    match last_index is_import_line ls with
    | Some j => join_nl (firstn (S j) ls ++ toast_import_line :: skipn (S j) ls)
    | None => content
    end.

(** A line that is the word [import] and then white space only: on such a
    line the white space of the pattern runs on over the line break. *)
Definition is_bare_import (l : str) : bool :=
  starts_with (cp "import") l && forallb is_space (skipn 6 l).

End BySpec.

(* ================================================================= *)
(** ** Texts to run the script on, and what the proofs count with *)

Module Samples.

(** Four lines: a call to rewrite, a commented call, a call with an error
    key word, and a call left open. *)
Definition four_lines : str :=
  cp "alert('Saved');" ++ nl :: cp "  // alert('debug');" ++ nl
    :: cp "if (x) alert('Error' + e); else log(1);" ++ nl :: cp "alert(".

(** A disk with a file that may be rewritten and one that is protected
    against writing. *)
Definition two_files : MemDisk.disk :=
  [(cp "a.tsx",
    {| MemDisk.text := cp "import a from 'a';" ++ nl :: cp "alert('Saved');";
       MemDisk.readable := true; MemDisk.writable := true |});
   (cp "b.tsx",
    {| MemDisk.text := cp "alert('x');";
       MemDisk.readable := true; MemDisk.writable := false |})].

(** The first file after the script has rewritten it. *)
Definition two_files_after : MemDisk.disk :=
  [(cp "a.tsx",
    {| MemDisk.text :=
         cp "import a from 'a';" ++ nl :: toast_import_line
           ++ nl :: cp "toast.success('Saved');";
       MemDisk.readable := true; MemDisk.writable := true |});
   (cp "b.tsx",
    {| MemDisk.text := cp "alert('x');";
       MemDisk.readable := true; MemDisk.writable := false |})].

End Samples.

(** The spans of the import lines of a text whose lines are [ls] and whose
    first line starts at offset [pos]. *)
Fixpoint line_spans (pos : nat) (ls : list str) : list (nat * nat) :=
  match ls with
  | [] => []
  | l :: ls' =>
      (if BySpec.is_import_line l then [(pos, pos + length l)] else [])
      ++ line_spans (pos + length l + 1) ls'
  end.

(** A span of [content] that the import pattern can match: it begins at the
    start of a line with the word [import] and white space, and ends with a
    semicolon at the end of a line. *)
Definition import_span (content : str) (span : nat * nat) : Prop :=
  exists a m b,
    content = a ++ m ++ b
    /\ length a = fst span
    /\ length a + length m = snd span
    /\ (a = [] \/ last a 0%N = nl)
    /\ starts_with (cp "import") m = true
    /\ (exists c, nth_error m 6 = Some c /\ is_space c = true)
    /\ last m 0%N = 59%N
    /\ at_eol b = true.

(** The spans come from the left, none empty, each at or after the end of
    the one before; the first begins at [from] or later. *)
Fixpoint spans_in_order (from : nat) (spans : list (nat * nat)) : Prop :=
  match spans with
  | [] => True
  | (s, e) :: rest => from <= s /\ s < e /\ spans_in_order e rest
  end.

(** An ASCII small letter made a capital; every other code point as it
    is. *)
Definition ascii_upper_char (c : char) : char :=
  if (N.leb 97 c && N.leb c 122)%bool then (c - 32)%N else c.

Module MoreSamples.

(** A disk with one file the script has nothing left to do on. *)
Definition converted : MemDisk.disk :=
  [(cp "done.tsx",
    {| MemDisk.text := toast_import_line ++ nl :: cp "toast.info('x');";
       MemDisk.readable := true; MemDisk.writable := true |})].

End MoreSamples.

(** [run] as the specification words it: the files in order; a path that
    does not exist is reported and skipped; the others go to
    [process_file], and the counter goes up by one for each that returns
    [True].  The result is the disk afterwards, the lines printed for the
    files and the counter. *)
Section RunBySpec.

Context {fs : Type} `{FileSystem fs}.

Fixpoint visit (files : list str) (disk : fs) : fs * list str * nat :=
  match files with
  | [] => (disk, [], 0)
  | filepath :: rest =>
      if path_exists filepath disk then
        let '(disk1, printed, ok) := process_file filepath disk in
        let '(disk2, logs, successes) := visit rest disk1 in
        (disk2, printed ++ logs, (if ok then 1 else 0) + successes)
      else
        let '(disk2, logs, successes) := visit rest disk in
        (disk2, (10007%N :: cp " File not found: " ++ filepath) :: logs,
         successes)
  end.

End RunBySpec.

(* ================================================================= *)
(** * Properties *)

(** ** Facts on strings *)

Lemma starts_with_nil (p : str) : starts_with p [] = true -> p = [].
Proof. destruct p; [reflexivity | discriminate]. Qed.

Lemma starts_with_app (p s : str) : starts_with p (p ++ s) = true.
Proof.
  induction p as [|a p IH]; simpl; [reflexivity|].
  now rewrite N.eqb_refl.
Qed.

Lemma starts_with_split (p s : str) :
  starts_with p s = true -> exists r, s = p ++ r.
Proof.
  revert s; induction p as [|a p IH]; intros s Hp.
  - now exists s.
  - destruct s as [|b s]; [discriminate|].
    simpl in Hp. apply andb_prop in Hp as [Hab Hp].
    apply N.eqb_eq in Hab; subst b.
    destruct (IH _ Hp) as [r ->]. now exists r.
Qed.

Lemma starts_with_iff (p s : str) :
  starts_with p s = true <-> exists r, s = p ++ r.
Proof.
  split; [apply starts_with_split|].
  intros [r ->]; apply starts_with_app.
Qed.

(** A prefix of a prefix. *)
Lemma starts_with_app_l (p q s : str) :
  starts_with (p ++ q) s = true -> starts_with p s = true.
Proof.
  intros Hs. apply starts_with_split in Hs as [r ->].
  rewrite <- app_assoc. apply starts_with_app.
Qed.

Lemma contains_split (p s : str) :
  contains p s = true -> exists pre post, s = pre ++ p ++ post.
Proof.
  induction s as [|c s IH]; simpl; intros Hc.
  - apply starts_with_nil in Hc; subst p. now exists [], [].
  - apply orb_prop in Hc as [Hc|Hc].
    + apply starts_with_split in Hc as [r Hr]. now exists [], r.
    + destruct (IH Hc) as (pre & post & ->). now exists (c :: pre), post.
Qed.

Lemma contains_starts (p s : str) :
  starts_with p s = true -> contains p s = true.
Proof. destruct s; simpl; intros ->; reflexivity. Qed.

Lemma contains_app (p pre post : str) : contains p (pre ++ p ++ post) = true.
Proof.
  induction pre as [|c pre IH]; simpl.
  - apply contains_starts, starts_with_app.
  - rewrite IH. apply orb_true_r.
Qed.

Lemma contains_iff (p s : str) :
  contains p s = true <-> exists pre post, s = pre ++ p ++ post.
Proof.
  split; [apply contains_split|].
  intros (pre & post & ->); apply contains_app.
Qed.

(** What does not occur in a string does not occur in its tails. *)
Lemma contains_false_app_r (p x y : str) :
  contains p (x ++ y) = false -> contains p y = false.
Proof.
  intros Hc. destruct (contains p y) eqn:E; [|reflexivity].
  apply contains_split in E as (pre & post & ->).
  rewrite app_assoc, contains_app in Hc. discriminate.
Qed.

Lemma contains_false_cons (p : str) (c : char) (s : str) :
  contains p (c :: s) = false ->
  starts_with p (c :: s) = false /\ contains p s = false.
Proof. simpl. intros Hc. now apply orb_false_elim in Hc. Qed.

Lemma occurrences_0 (p s : str) :
  occurrences p s = 0 <-> contains p s = false.
Proof.
  induction s as [|c s IH]; simpl.
  - destruct (starts_with p []); split; intros; (discriminate || reflexivity).
  - destruct (starts_with p (c :: s)); simpl.
    + split; intros; discriminate.
    + exact IH.
Qed.

Lemma occurrences_pos (p s : str) :
  contains p s = true <-> 0 < occurrences p s.
Proof.
  pose proof (occurrences_0 p s) as [H1 H2].
  destruct (contains p s); split; intros Hc; try reflexivity; try discriminate.
  - destruct (occurrences p s); [specialize (H1 eq_refl); discriminate | lia].
  - specialize (H2 eq_refl); lia.
Qed.

Lemma none_starts_in_contains (p x y : str) :
  contains p (x ++ y) = false <->
  none_starts_in p x y = true /\ contains p y = false.
Proof.
  induction x as [|c x IH]; simpl.
  - tauto.
  - rewrite orb_false_iff, andb_true_iff, negb_true_iff. tauto.
Qed.

(** The first occurrence of a needle the string contains. *)
Lemma first_occurrence (p s : str) :
  contains p s = true ->
  exists pre post, s = pre ++ p ++ post /\ none_starts_in p pre (p ++ post) = true.
Proof.
  induction s as [|c s IH]; simpl; intros Hc.
  - apply starts_with_nil in Hc; subst p. now exists [], [].
  - destruct (starts_with p (c :: s)) eqn:Hs.
    + apply starts_with_split in Hs as [r Hr]. now exists [], r.
    + simpl in Hc. destruct (IH Hc) as (pre & post & -> & Hn).
      exists (c :: pre), post. split; [reflexivity|].
      simpl. simpl in Hs. rewrite Hs, Hn. reflexivity.
Qed.

(** A needle that occurs once: nothing starts before the occurrence and
    nothing after its first code point. *)
Lemma single_occurrence (a : char) (p pre post : str) :
  occurrences (a :: p) (pre ++ (a :: p) ++ post) = 1 ->
  none_starts_in (a :: p) pre ((a :: p) ++ post) = true
  /\ contains (a :: p) (p ++ post) = false.
Proof.
  induction pre as [|c pre IH]; intros Ho.
  - split; [reflexivity|].
    change ([] ++ (a :: p) ++ post) with (a :: p ++ post) in Ho.
    cbn [occurrences] in Ho.
    change (a :: p ++ post) with ((a :: p) ++ post) in Ho.
    rewrite starts_with_app in Ho.
    apply occurrences_0. lia.
  - change ((c :: pre) ++ (a :: p) ++ post)
      with (c :: pre ++ (a :: p) ++ post) in Ho.
    cbn [occurrences] in Ho.
    assert (Hpos : 0 < occurrences (a :: p) (pre ++ (a :: p) ++ post))
      by (apply occurrences_pos, contains_app).
    destruct (starts_with (a :: p) (c :: pre ++ (a :: p) ++ post)) eqn:Hs;
      [lia|].
    destruct (IH ltac:(lia)) as [Hn Hc]. split; [|exact Hc].
    cbn [none_starts_in]. change ((c :: pre) ++ (a :: p) ++ post)
      with (c :: pre ++ (a :: p) ++ post).
    rewrite Hs, Hn. reflexivity.
Qed.

(** ** Facts on [replace] *)

Lemma replace_go_skip (old new t s : str) :
  replace_go old new (length t) (t ++ s) = replace_go old new 0 s.
Proof. induction t as [|c t IH]; simpl; [reflexivity | exact IH]. Qed.

Lemma replace_go_absent (old new s : str) :
  contains old s = false -> replace_go old new 0 s = s.
Proof.
  induction s as [|c s IH]; [reflexivity|].
  intros Hc. apply contains_false_cons in Hc as [Hs Hc].
  cbn [replace_go]. rewrite Hs, (IH Hc). reflexivity.
Qed.

(** Up to the first occurrence of [old] the string is kept, the occurrence
    becomes [new], and the replacement goes on after it. *)
Lemma replace_go_first (a : char) (old new pre post : str) :
  none_starts_in (a :: old) pre ((a :: old) ++ post) = true ->
  replace_go (a :: old) new 0 (pre ++ (a :: old) ++ post)
  = pre ++ new ++ replace_go (a :: old) new 0 post.
Proof.
  induction pre as [|c pre IH]; intros Hn.
  - change ([] ++ (a :: old) ++ post) with (a :: old ++ post).
    cbn [replace_go].
    change (a :: old ++ post) with ((a :: old) ++ post).
    rewrite starts_with_app.
    change (length (a :: old) - 1) with (length old - 0).
    rewrite Nat.sub_0_r, replace_go_skip. reflexivity.
  - cbn [none_starts_in] in Hn. apply andb_prop in Hn as [Hs Hn].
    apply negb_true_iff in Hs.
    change ((c :: pre) ++ (a :: old) ++ post)
      with (c :: pre ++ (a :: old) ++ post) in *.
    cbn [replace_go]. rewrite Hs, (IH Hn). reflexivity.
Qed.

Lemma replace_first (a : char) (old new pre post : str) :
  none_starts_in (a :: old) pre ((a :: old) ++ post) = true ->
  replace (a :: old) new (pre ++ (a :: old) ++ post)
  = pre ++ new ++ replace (a :: old) new post.
Proof. apply replace_go_first. Qed.

(** Replacing the one occurrence of [old]. *)
Lemma replace_single (a : char) (old new pre post : str) :
  none_starts_in (a :: old) pre ((a :: old) ++ post) = true ->
  contains (a :: old) post = false ->
  replace (a :: old) new (pre ++ (a :: old) ++ post) = pre ++ new ++ post.
Proof.
  intros Hn Hc. rewrite replace_first by exact Hn.
  unfold replace. now rewrite replace_go_absent.
Qed.

(** A string that contains [old] contains [new] once [old] is replaced. *)
Lemma replace_contains_new (a : char) (old new s : str) :
  contains (a :: old) s = true ->
  contains new (replace (a :: old) new s) = true.
Proof.
  intros Hc. apply first_occurrence in Hc as (pre & post & -> & Hn).
  rewrite replace_first by exact Hn. apply contains_app.
Qed.

(** ** Facts on the pattern for [alert] calls *)

#[local] Arguments N.eqb !n !m.

Lemma lazy_to_rparen_split (s m : str) :
  lazy_to_rparen s = Some m -> exists post, s = m ++ 41%N :: post.
Proof.
  revert m; induction s as [|c s IH]; intros m Hm; [discriminate|].
  cbn [lazy_to_rparen] in Hm.
  destruct (N.eqb_spec c 41) as [->|Hc].
  - injection Hm as <-. now exists s.
  - destruct (is_nl c); [discriminate|].
    destruct (lazy_to_rparen s) as [m'|]; [|discriminate].
    injection Hm as <-. destruct (IH _ eq_refl) as [post ->].
    now exists post.
Qed.

Lemma lazy_to_rparen_some (s : str) :
  ~ In nl s -> In 41%N s -> exists m, lazy_to_rparen s = Some m.
Proof.
  induction s as [|c s IH]; intros Hnl Hin; [contradiction|].
  cbn [lazy_to_rparen].
  destruct (N.eqb_spec c 41) as [->|Hc]; [now exists []|].
  unfold is_nl. destruct (N.eqb_spec c nl) as [->|Hn].
  - exfalso. apply Hnl. now left.
  - destruct IH as [m ->].
    + intros Hs. apply Hnl. now right.
    + destruct Hin as [E|Hin]; [congruence | exact Hin].
    + now exists (c :: m).
Qed.

Lemma lazy_to_rparen_none (s : str) :
  ~ In 41%N s -> lazy_to_rparen s = None.
Proof.
  induction s as [|c s IH]; intros Hin; [reflexivity|].
  cbn [lazy_to_rparen].
  destruct (N.eqb_spec c 41) as [->|Hc].
  - exfalso. apply Hin. now left.
  - rewrite IH by (intros Hs; apply Hin; now right).
    now destruct (is_nl c).
Qed.

Lemma alert_match_here_app (rest : str) :
  alert_match_here (cp "alert(" ++ rest) = lazy_to_rparen rest.
Proof. reflexivity. Qed.

Lemma alert_match_here_none (s : str) :
  starts_with (cp "alert(") s = false -> alert_match_here s = None.
Proof. unfold alert_match_here. now intros ->. Qed.

Lemma search_alert_absent (s : str) :
  contains (cp "alert(") s = false -> search_alert s = None.
Proof.
  induction s as [|c s IH]; intros Hc; [reflexivity|].
  apply contains_false_cons in Hc as [Hs Hc].
  cbn [search_alert]. now rewrite (alert_match_here_none _ Hs), (IH Hc).
Qed.

(** The search tries the first occurrence of [alert(] first and goes on
    after it only when no closing parenthesis follows on the line. *)
Lemma search_alert_first (pre rest : str) :
  none_starts_in (cp "alert(") pre (cp "alert(" ++ rest) = true ->
  search_alert (pre ++ cp "alert(" ++ rest)
  = match lazy_to_rparen rest with
    | Some m => Some m
    | None => search_alert (cp "lert(" ++ rest)
    end.
Proof.
  induction pre as [|c pre IH]; intros Hn.
  - reflexivity.
  - cbn [none_starts_in] in Hn. apply andb_prop in Hn as [Hs Hn].
    apply negb_true_iff in Hs.
    change ((c :: pre) ++ cp "alert(" ++ rest)
      with (c :: pre ++ cp "alert(" ++ rest) in *.
    cbn [search_alert]. now rewrite (alert_match_here_none _ Hs), (IH Hn).
Qed.

(** The call the search finds is on the line. *)
Lemma search_alert_contains (s m : str) :
  search_alert s = Some m -> contains (alert_call m) s = true.
Proof.
  induction s as [|c s IH]; intros Hm.
  - discriminate.
  - cbn [search_alert] in Hm.
    destruct (alert_match_here (c :: s)) as [m'|] eqn:Hh.
    + injection Hm as ->. unfold alert_match_here in Hh.
      destruct (starts_with (cp "alert(") (c :: s)) eqn:Hs; [|discriminate].
      apply starts_with_split in Hs as [rest Hr]. rewrite Hr in Hh |- *.
      change (skipn 6 (cp "alert(" ++ rest)) with rest in Hh.
      apply lazy_to_rparen_split in Hh as [post ->].
      apply contains_starts. unfold alert_call.
      replace (cp "alert(" ++ m ++ 41%N :: post)
        with ((cp "alert(" ++ m ++ cp ")") ++ post)
        by (now rewrite <- !app_assoc).
      apply starts_with_app.
    + cbn [contains]. rewrite (IH Hm). apply orb_true_r.
Qed.

(** ** The three branches of [replace_alerts_line] *)

Lemma replace_alerts_line_classify (line : str) :
  replace_alerts_line line
  = if contains (cp "alert(") line && negb (contains (cp "// alert(") line)
    then match search_alert line with
         | Some m => replace (alert_call m) (toast_call (classify line) m) line
         | None => line
         end
    else line.
Proof.
  unfold replace_alerts_line, classify.
  destruct (is_success line), (is_error line); reflexivity.
Qed.

(** No [alert(] begins inside or across the head of a toast call. *)
Lemma toast_head_no_alert (v : severity) (y : str) :
  contains (cp "alert(") (cp "toast." ++ severity_name v ++ cp "(" ++ y)
  = contains (cp "alert(") y.
Proof. destruct v; reflexivity. Qed.

(** An [alert(] that begins before a toast call would begin there before
    [alert(] as well. *)
Lemma toast_head_straddle (v : severity) (u y z : str) :
  u <> [] ->
  starts_with (cp "alert(") (u ++ cp "alert(" ++ z) = false ->
  starts_with (cp "alert(")
    (u ++ cp "toast." ++ severity_name v ++ cp "(" ++ y) = false.
Proof.
  intros Hu.
  destruct u as [|c1 [|c2 [|c3 [|c4 [|c5 [|c6 u]]]]]]; [contradiction|..];
    destruct v; simpl; rewrite ?andb_false_r; auto.
Qed.

Lemma none_starts_in_toast (v : severity) (pre y z : str) :
  none_starts_in (cp "alert(") pre (cp "alert(" ++ z) = true ->
  none_starts_in (cp "alert(") pre
    (cp "toast." ++ severity_name v ++ cp "(" ++ y) = true.
Proof.
  induction pre as [|c pre IH]; intros Hn; [reflexivity|].
  cbn [none_starts_in] in *. apply andb_prop in Hn as [Hs Hn].
  apply negb_true_iff in Hs.
  rewrite (IH Hn), (toast_head_straddle v (c :: pre) y z); auto.
  discriminate.
Qed.

Lemma contains_longer (p q s : str) :
  contains p s = false -> contains (p ++ q) s = false.
Proof.
  intros Hc. destruct (contains (p ++ q) s) eqn:E; [|reflexivity].
  apply contains_split in E as (pre & post & ->).
  rewrite <- app_assoc, contains_app in Hc. discriminate.
Qed.

Lemma none_starts_in_longer (p q x y : str) :
  none_starts_in p x y = true -> none_starts_in (p ++ q) x y = true.
Proof.
  induction x as [|c x IH]; intros Hn; [reflexivity|].
  cbn [none_starts_in] in *. apply andb_prop in Hn as [Hs Hn].
  rewrite (IH Hn), andb_true_r. apply negb_true_iff in Hs.
  apply negb_true_iff.
  destruct (starts_with (p ++ q) ((c :: x) ++ y)) eqn:E; [|reflexivity].
  apply starts_with_app_l in E. congruence.
Qed.

(** ** Lines with one [alert(] *)

Lemma replace_alerts_line_no_alert (line : str) :
  contains (cp "alert(") line = false -> replace_alerts_line line = line.
Proof. unfold replace_alerts_line. now intros ->. Qed.

Lemma replace_alerts_line_comment (line : str) :
  contains (cp "// alert(") line = true -> replace_alerts_line line = line.
Proof.
  unfold replace_alerts_line. intros ->. now rewrite andb_false_r.
Qed.

Lemma replace_alerts_line_no_match (line : str) :
  search_alert line = None -> replace_alerts_line line = line.
Proof.
  unfold replace_alerts_line. intros ->.
  now destruct (_ && _).
Qed.

(** On a line with one [alert(], the search answers for that occurrence. *)
Lemma search_alert_single (pre rest : str) :
  occurrences (cp "alert(") (pre ++ cp "alert(" ++ rest) = 1 ->
  search_alert (pre ++ cp "alert(" ++ rest) = lazy_to_rparen rest.
Proof.
  intros Ho.
  destruct (single_occurrence 97%N (cp "lert(") pre rest Ho) as [Hn Hc].
  rewrite (search_alert_first pre rest Hn).
  destruct (lazy_to_rparen rest); [reflexivity|].
  now apply search_alert_absent.
Qed.

(** On a line with one [alert(], a closing parenthesis after it and no
    comment guard, the word [alert] becomes [toast.<severity>] and the rest
    of the line stays. *)
Lemma replace_alerts_line_single (pre rest m : str) :
  let line := pre ++ cp "alert(" ++ rest in
  occurrences (cp "alert(") line = 1 ->
  contains (cp "// alert(") line = false ->
  lazy_to_rparen rest = Some m ->
  replace_alerts_line line
  = pre ++ cp "toast." ++ severity_name (classify line) ++ cp "(" ++ rest.
Proof.
  intros line Ho Hg Hm.
  rewrite replace_alerts_line_classify. fold line. rewrite Hg.
  unfold line at 1. rewrite contains_app. cbn [andb negb].
  unfold line at 1. rewrite (search_alert_single pre rest Ho), Hm.
  destruct (single_occurrence 97%N (cp "lert(") pre rest Ho) as [Hn Hc].
  apply lazy_to_rparen_split in Hm as [post ->].
  assert (Hline : line = pre ++ alert_call m ++ post).
  { unfold line, alert_call. now rewrite <- !app_assoc. }
  rewrite Hline at 2.
  change (alert_call m) with (97%N :: (cp "lert(" ++ m ++ cp ")")).
  rewrite replace_single.
  - unfold toast_call. now rewrite <- !app_assoc.
  - change (97%N :: (cp "lert(" ++ m ++ cp ")"))
      with (cp "alert(" ++ (m ++ cp ")")).
    apply none_starts_in_longer.
    rewrite <- !app_assoc. exact Hn.
  - change (97%N :: (cp "lert(" ++ m ++ cp ")"))
      with (cp "alert(" ++ (m ++ cp ")")).
    apply contains_longer.
    apply (contains_false_app_r _ (cp "lert(" ++ m ++ cp ")")).
    rewrite <- !app_assoc. exact Hc.
Qed.

(** After that no [alert(] is left on the line. *)
Lemma no_alert_left (v : severity) (pre rest : str) :
  occurrences (cp "alert(") (pre ++ cp "alert(" ++ rest) = 1 ->
  contains (cp "alert(")
    (pre ++ cp "toast." ++ severity_name v ++ cp "(" ++ rest) = false.
Proof.
  intros Ho.
  destruct (single_occurrence 97%N (cp "lert(") pre rest Ho) as [Hn Hc].
  apply none_starts_in_contains. split.
  - exact (none_starts_in_toast v pre rest rest Hn).
  - rewrite toast_head_no_alert.
    exact (contains_false_app_r _ (cp "lert(") _ Hc).
Qed.

(** A line with at most one [alert(] is settled by one pass. *)
Lemma replace_alerts_line_idem (line : str) :
  occurrences (cp "alert(") line <= 1 ->
  replace_alerts_line (replace_alerts_line line) = replace_alerts_line line.
Proof.
  intros Ho.
  destruct (contains (cp "alert(") line) eqn:Ha;
    [|now rewrite !(replace_alerts_line_no_alert _ Ha)].
  destruct (contains (cp "// alert(") line) eqn:Hg;
    [now rewrite !(replace_alerts_line_comment _ Hg)|].
  destruct (search_alert line) as [m|] eqn:Hm;
    [|now rewrite !(replace_alerts_line_no_match _ Hm)].
  assert (Ho1 : occurrences (cp "alert(") line = 1).
  { apply occurrences_pos in Ha. lia. }
  apply contains_split in Ha as (pre & rest & ->).
  rewrite (search_alert_single pre rest Ho1) in Hm.
  rewrite (replace_alerts_line_single pre rest m Ho1 Hg Hm).
  apply replace_alerts_line_no_alert, no_alert_left, Ho1.
Qed.

(** ** Lines of a text *)

Lemma split_nl_not_nil (s : str) : split_nl s <> [].
Proof.
  destruct s as [|c s]; simpl; [discriminate|].
  destruct (is_nl c); [discriminate|].
  destruct (split_nl s); discriminate.
Qed.

Lemma split_nl_no_nl (s : str) : Forall (fun l => ~ In nl l) (split_nl s).
Proof.
  induction s as [|c s IH]; simpl.
  - constructor; [tauto | constructor].
  - unfold is_nl. destruct (N.eqb_spec c nl) as [->|Hc].
    + constructor; [tauto | exact IH].
    + destruct (split_nl s) as [|l ls]; [constructor; [|constructor]|].
      * intros [E|[]]. congruence.
      * inversion IH as [|? ? Hl Hls]; subst. constructor; [|exact Hls].
        intros [E|Hin]; [congruence | tauto].
Qed.

Lemma join_split_nl (s : str) : join_nl (split_nl s) = s.
Proof.
  induction s as [|c s IH]; [reflexivity|].
  cbn [split_nl]. unfold is_nl. destruct (N.eqb_spec c nl) as [->|Hc].
  - pose proof (split_nl_not_nil s) as Hne.
    cbn [join_nl]. destruct (split_nl s) as [|l ls]; [contradiction|].
    now rewrite IH.
  - pose proof (split_nl_not_nil s) as Hne.
    destruct (split_nl s) as [|l ls]; [contradiction|].
    destruct ls as [|l' ls]; cbn [join_nl] in *; now rewrite <- IH.
Qed.

Lemma split_nl_app_line (l s : str) :
  ~ In nl l -> split_nl (l ++ nl :: s) = l :: split_nl s.
Proof.
  induction l as [|c l IH]; intros Hl; [reflexivity|].
  cbn [app split_nl]. unfold is_nl.
  destruct (N.eqb_spec c nl) as [->|Hc]; [exfalso; apply Hl; now left|].
  rewrite IH by (intros Hin; apply Hl; now right). reflexivity.
Qed.

Lemma split_nl_line (l : str) : ~ In nl l -> split_nl l = [l].
Proof.
  induction l as [|c l IH]; intros Hl; [reflexivity|].
  cbn [split_nl]. unfold is_nl.
  destruct (N.eqb_spec c nl) as [->|Hc]; [exfalso; apply Hl; now left|].
  rewrite IH by (intros Hin; apply Hl; now right). reflexivity.
Qed.

Lemma split_join_nl (ls : list str) :
  ls <> [] -> Forall (fun l => ~ In nl l) ls -> split_nl (join_nl ls) = ls.
Proof.
  induction ls as [|l ls IH]; intros Hne Hall; [contradiction|].
  inversion Hall as [|? ? Hl Hls]; subst.
  destruct ls as [|l' ls].
  - apply split_nl_line, Hl.
  - cbn [join_nl]. rewrite split_nl_app_line by exact Hl.
    f_equal. apply IH; [discriminate | exact Hls].
Qed.

(** ** The rewriting keeps a line a line *)

Lemma replace_go_no_nl (old new s : str) (k : nat) :
  ~ In nl new -> ~ In nl s -> ~ In nl (replace_go old new k s).
Proof.
  intros Hnew. revert k. induction s as [|c s IH]; intros k Hs; [exact Hs|].
  assert (Hs' : ~ In nl s) by (intros Hin; apply Hs; now right).
  cbn [replace_go]. destruct k as [|k]; [|now apply IH].
  destruct (starts_with old (c :: s)).
  - intros Hin. apply in_app_or in Hin as [Hin|Hin]; [tauto|].
    exact (IH _ Hs' Hin).
  - intros [E|Hin]; [apply Hs; now left | exact (IH 0 Hs' Hin)].
Qed.

Lemma replace_no_nl (a : char) (old new s : str) :
  ~ In nl new -> ~ In nl s -> ~ In nl (replace (a :: old) new s).
Proof. apply replace_go_no_nl. Qed.

Lemma toast_call_no_nl (v : severity) (m : str) :
  ~ In nl m -> ~ In nl (toast_call v m).
Proof.
  intros Hm Hin. unfold toast_call in Hin.
  repeat (apply in_app_or in Hin as [Hin|Hin]).
  - vm_compute in Hin. intuition discriminate.
  - destruct v; vm_compute in Hin; intuition discriminate.
  - vm_compute in Hin. intuition discriminate.
  - tauto.
  - vm_compute in Hin. intuition discriminate.
Qed.

Lemma replace_alerts_line_no_nl (line : str) :
  ~ In nl line -> ~ In nl (replace_alerts_line line).
Proof.
  intros Hl. rewrite replace_alerts_line_classify.
  destruct (_ && _); [|exact Hl].
  destruct (search_alert line) as [m|] eqn:Hm; [|exact Hl].
  apply replace_no_nl; [|exact Hl].
  apply toast_call_no_nl.
  apply search_alert_contains, contains_split in Hm as (pre & post & ->).
  intros Hin. apply Hl. unfold alert_call.
  apply in_or_app; right. apply in_or_app; left.
  apply in_or_app; right. apply in_or_app; now left.
Qed.

Lemma split_replace_alerts (content : str) :
  split_nl (replace_alerts content)
  = map replace_alerts_line (split_nl content).
Proof.
  unfold replace_alerts. apply split_join_nl.
  - pose proof (split_nl_not_nil content).
    destruct (split_nl content); [contradiction | discriminate].
  - apply Forall_map. eapply Forall_impl; [|apply split_nl_no_nl].
    intros l. apply replace_alerts_line_no_nl.
Qed.

Lemma search_alert_no_rparen (s : str) :
  ~ In 41%N s -> search_alert s = None.
Proof.
  induction s as [|c s IH]; intros Hs; [reflexivity|].
  cbn [search_alert]. rewrite IH by (intros Hin; apply Hs; now right).
  unfold alert_match_here.
  destruct (starts_with (cp "alert(") (c :: s)) eqn:E; [|reflexivity].
  apply starts_with_split in E as [rest E]. rewrite E in Hs |- *.
  change (skipn 6 (cp "alert(" ++ rest)) with rest.
  rewrite lazy_to_rparen_none; [reflexivity|].
  intros Hin. apply Hs. apply in_or_app. now right.
Qed.

Lemma replace_alerts_one_line (line : str) :
  ~ In nl line -> replace_alerts line = replace_alerts_line line.
Proof. intros Hl. unfold replace_alerts. now rewrite split_nl_line. Qed.

(** A replaced line is not the line it was. *)
Lemma replace_alert_call_changes (v : severity) (X line : str) :
  contains (alert_call X) line = true ->
  replace (alert_call X) (toast_call v X) line <> line.
Proof.
  intros Hc. apply first_occurrence in Hc as (pre & post & Hl & Hn).
  rewrite Hl at 1 2.
  change (alert_call X) with (97%N :: (cp "lert(" ++ X ++ cp ")")) in *.
  rewrite replace_first by exact Hn.
  intros E. apply app_inv_head in E. destruct v; discriminate E.
Qed.

Lemma in_join_nl (l : str) (ls : list str) :
  In l ls -> exists pre post, join_nl ls = pre ++ l ++ post.
Proof.
  induction ls as [|x ls IH]; intros Hin; [contradiction|].
  destruct ls as [|y ls].
  - destruct Hin as [->|[]]. exists [], []. cbn. now rewrite app_nil_r.
  - change (join_nl (x :: y :: ls)) with (x ++ nl :: join_nl (y :: ls)).
    destruct Hin as [->|Hin].
    + now exists [], (nl :: join_nl (y :: ls)).
    + destruct (IH Hin) as (pre & post & ->).
      exists (x ++ nl :: pre), post. now rewrite <- app_assoc.
Qed.

(** The line at a place in the output is the line at that place in the
    input, rewritten. *)
Lemma replace_alerts_nth (content line : str) (i : nat) :
  nth_error (split_nl content) i = Some line ->
  nth_error (split_nl (replace_alerts content)) i
  = Some (replace_alerts_line line).
Proof.
  intros Hi. now rewrite split_replace_alerts, nth_error_map, Hi.
Qed.

(** What a line of the output contains, the output contains. *)
Lemma replace_alerts_contains (p content line : str) (i : nat) :
  nth_error (split_nl content) i = Some line ->
  contains p (replace_alerts_line line) = true ->
  contains p (replace_alerts content) = true.
Proof.
  intros Hi Hc. apply contains_split in Hc as (x & y & E).
  destruct (in_join_nl (replace_alerts_line line)
              (map replace_alerts_line (split_nl content)))
    as (pre & post & Ej).
  { apply in_map. eapply nth_error_In. exact Hi. }
  unfold replace_alerts. rewrite Ej, E.
  replace (pre ++ (x ++ p ++ y) ++ post)
    with ((pre ++ x) ++ p ++ (y ++ post)) by (now rewrite <- !app_assoc).
  apply contains_app.
Qed.

(* ================================================================= *)
(** ** callSiteReplace: the claims *)

(** C1. For every text and every line of it whose alert call [alert(X)]
    is replaced, the key words on the line, read without regard to case,
    choose the toast in the output of [replace_alerts]: a success key word
    and none of fail, error, warning gives [toast.success(X)]; one of fail,
    error, warning gives [toast.error(X)], with a success key word on the
    line or without; no key word gives [toast.info(X)].  In each case the
    line at the same place in the output is the old one with [alert(X)]
    replaced, and the output contains the toast call. *)
Theorem C1_severity_by_keywords (content line X : str) (i : nat) :
  nth_error (split_nl content) i = Some line ->
  contains (cp "alert(") line = true ->
  contains (cp "// alert(") line = false ->
  search_alert line = Some X ->
  let has := fun keyword => contains (cp keyword) (lower line) in
  let any_success :=
    existsb has ["success"; "updated"; "saved"; "created"; "posted";
                 "submitted"; "copied"; "closed"; "depreciated"]%string in
  let any_error := existsb has ["fail"; "error"; "warning"]%string in
  let replaced_by := fun v =>
    nth_error (split_nl (replace_alerts content)) i
    = Some (replace (alert_call X) (toast_call v X) line)
    /\ contains (toast_call v X)
         (replace (alert_call X) (toast_call v X) line) = true
    /\ contains (toast_call v X) (replace_alerts content) = true in
  (any_success = true -> any_error = false -> replaced_by Success)
  /\ (any_error = true -> replaced_by Error)
  /\ (any_success = false -> any_error = false -> replaced_by Info).
Proof.
  intros Hi Ha Hg Hm has any_success any_error replaced_by.
  assert (Hs : is_success line = any_success) by reflexivity.
  assert (He : is_error line = any_error).
  { unfold is_error, any_error, has. cbn [existsb].
    now rewrite orb_false_r, orb_assoc. }
  assert (Hv : replaced_by (classify line)).
  { assert (E : replace_alerts_line line
               = replace (alert_call X) (toast_call (classify line) X) line).
    { rewrite replace_alerts_line_classify, Ha, Hg, Hm. reflexivity. }
    assert (Hc : contains (toast_call (classify line) X)
                   (replace (alert_call X) (toast_call (classify line) X) line)
                 = true).
    { apply search_alert_contains in Hm.
      change (alert_call X) with (97%N :: (cp "lert(" ++ X ++ cp ")")) in *.
      now apply replace_contains_new. }
    split; [|split; [exact Hc|]].
    - rewrite <- E. now apply replace_alerts_nth.
    - apply (replace_alerts_contains _ content line i Hi). now rewrite E. }
  unfold classify in Hv. rewrite Hs, He in Hv.
  split; [|split]; intros; destruct any_success, any_error;
    try discriminate; exact Hv.
Qed.

(** C9. A line that contains [alert(] and on which the pattern finds no
    match is passed through as it is; the pattern finds no match when no
    closing parenthesis follows the first [alert(] of the line. *)
Theorem C9_unmatched_line_unchanged (line : str) :
  (contains (cp "alert(") line = true ->
   search_alert line = None ->
   replace_alerts_line line = line
   /\ (~ In nl line -> replace_alerts line = line))
  /\ (forall pre rest,
        line = pre ++ cp "alert(" ++ rest ->
        none_starts_in (cp "alert(") pre (cp "alert(" ++ rest) = true ->
        ~ In 41%N rest ->
        search_alert line = None).
Proof.
  split.
  - intros _ Hm. pose proof (replace_alerts_line_no_match _ Hm) as E.
    split; [exact E|]. intros Hl. now rewrite replace_alerts_one_line.
  - intros pre rest -> Hn Hr. rewrite search_alert_first by exact Hn.
    rewrite lazy_to_rparen_none by exact Hr.
    apply search_alert_no_rparen.
    intros Hin. apply in_app_or in Hin as [Hin|Hin]; [|tauto].
    vm_compute in Hin. intuition discriminate.
Qed.

(** C9 on a line whose call is left open. *)
Lemma C9_unmatched_line_unchanged_witness :
  replace_alerts_line (cp "if (x) alert('no closing parenthesis';")
  = cp "if (x) alert('no closing parenthesis';"
  /\ replace_alerts (cp "if (x) alert('no closing parenthesis';")
     = cp "if (x) alert('no closing parenthesis';".
Proof.
  pose proof (C9_unmatched_line_unchanged
                (cp "if (x) alert('no closing parenthesis';")) as [H1 H2].
  assert (Hm : search_alert (cp "if (x) alert('no closing parenthesis';")
               = None).
  { apply (H2 (cp "if (x) ") (cp "'no closing parenthesis';")).
    - reflexivity.
    - reflexivity.
    - vm_compute. intuition discriminate. }
  destruct (H1 eq_refl Hm) as [E1 E2]. split; [exact E1|].
  apply E2. vm_compute. intuition discriminate.
Defined.

(** C10. The rewriting keeps the lines: the lines of the output are the
    lines of the input, each rewritten on its own, so there are as many of
    them and each stands where the line it comes from stood. *)
Theorem C10_line_structure (content : str) :
  split_nl (replace_alerts content)
  = map replace_alerts_line (split_nl content)
  /\ length (split_nl (replace_alerts content)) = length (split_nl content)
  /\ forall i,
       nth_error (split_nl (replace_alerts content)) i
       = option_map replace_alerts_line (nth_error (split_nl content) i).
Proof.
  pose proof (split_replace_alerts content) as E. rewrite E.
  split; [reflexivity|]. split; [apply length_map|].
  intros i. apply nth_error_map.
Qed.

(** C1 on a text of three lines: a success line, a line with both kinds of
    key word, and a line with none. *)
Lemma C1_severity_by_keywords_witness :
  let content :=
    cp "alert('Saved successfully!');" ++ nl
      :: cp "alert('Error: not saved');" ++ nl :: cp "alert('Hello');" in
  nth_error (split_nl (replace_alerts content)) 0
  = Some (cp "toast.success('Saved successfully!');")
  /\ nth_error (split_nl (replace_alerts content)) 1
     = Some (cp "toast.error('Error: not saved');")
  /\ nth_error (split_nl (replace_alerts content)) 2
     = Some (cp "toast.info('Hello');")
  /\ contains (cp "toast.error('Error: not saved')") (replace_alerts content)
     = true.
Proof.
  intros content.
  destruct (C1_severity_by_keywords content
              (cp "alert('Saved successfully!');")
              (cp "'Saved successfully!'") 0 eq_refl eq_refl eq_refl eq_refl)
    as (H0 & _ & _).
  destruct (H0 eq_refl eq_refl) as (E0 & _ & _).
  destruct (C1_severity_by_keywords content
              (cp "alert('Error: not saved');")
              (cp "'Error: not saved'") 1 eq_refl eq_refl eq_refl eq_refl)
    as (_ & H1 & _).
  destruct (H1 eq_refl) as (E1 & _ & C1).
  destruct (C1_severity_by_keywords content
              (cp "alert('Hello');") (cp "'Hello'") 2
              eq_refl eq_refl eq_refl eq_refl)
    as (_ & _ & H2).
  destruct (H2 eq_refl eq_refl) as (E2 & _ & _).
  split; [rewrite E0; reflexivity|].
  split; [rewrite E1; reflexivity|].
  split; [rewrite E2; reflexivity | exact C1].
Defined.

(** C2, as stated, fails: on a line with two alert calls the first pass
    rewrites the first call only, and the second pass rewrites the other. *)
Lemma C2_counterexample :
  replace_alerts (cp "alert(a); alert(b);") = cp "toast.info(a); alert(b);"
  /\ replace_alerts (replace_alerts (cp "alert(a); alert(b);"))
     = cp "toast.info(a); toast.info(b);"
  /\ replace_alerts (replace_alerts (cp "alert(a); alert(b);"))
     <> replace_alerts (cp "alert(a); alert(b);").
Proof.
  split; [|split]; [reflexivity | reflexivity |].
  vm_compute. discriminate.
Qed.

(** C2, amended. On a text in which no line has more than one [alert(],
    a second pass over the output of the first changes nothing: after the
    first pass every line either has no [alert(], or has the comment guard,
    or has no closing parenthesis for the pattern to match. *)
Theorem C2_idempotent_one_alert_per_line (content : str) :
  Forall (fun line => occurrences (cp "alert(") line <= 1) (split_nl content) ->
  replace_alerts (replace_alerts content) = replace_alerts content
  /\ Forall (fun line =>
               contains (cp "alert(") line = false
               \/ contains (cp "// alert(") line = true
               \/ search_alert line = None)
            (split_nl (replace_alerts content)).
Proof.
  intros Hall. split.
  - unfold replace_alerts at 1. rewrite split_replace_alerts.
    unfold replace_alerts. f_equal. rewrite map_map.
    apply map_ext_in. intros l Hl.
    apply replace_alerts_line_idem.
    rewrite Forall_forall in Hall. now apply Hall.
  - rewrite split_replace_alerts. apply Forall_map.
    eapply Forall_impl; [|exact Hall].
    intros l Ho. cbv beta in Ho.
    destruct (contains (cp "alert(") l) eqn:Ha;
      [|left; now rewrite replace_alerts_line_no_alert].
    destruct (contains (cp "// alert(") l) eqn:Hg;
      [right; left; now rewrite replace_alerts_line_comment|].
    destruct (search_alert l) as [m|] eqn:Hm;
      [|right; right; now rewrite replace_alerts_line_no_match].
    left.
    assert (Ho1 : occurrences (cp "alert(") l = 1).
    { apply occurrences_pos in Ha. lia. }
    apply contains_split in Ha as (pre & rest & ->).
    rewrite (search_alert_single pre rest Ho1) in Hm.
    rewrite (replace_alerts_line_single pre rest m Ho1 Hg Hm).
    apply no_alert_left, Ho1.
Qed.

(** C2, amended, on a text of four lines with one call each. *)
Lemma C2_idempotent_one_alert_per_line_witness :
  replace_alerts (replace_alerts Samples.four_lines) = replace_alerts Samples.four_lines.
Proof.
  apply (C2_idempotent_one_alert_per_line Samples.four_lines).
  vm_compute. repeat constructor.
Defined.

(** C3, as stated, fails both ways.  The guard looks for [// alert(]
    anywhere on the line: a call at the start of a line is left alone when a
    commented call follows it, and a call right after [//] with no space is
    rewritten. *)
Lemma C3_counterexample :
  starts_with (cp "alert(") (cp "alert('x'); // alert('y');") = true
  /\ search_alert (cp "alert('x'); // alert('y');") = Some (cp "'x'")
  /\ replace_alerts (cp "alert('x'); // alert('y');")
     = cp "alert('x'); // alert('y');"
  /\ replace_alerts (cp "//alert('debug');") = cp "//toast.info('debug');".
Proof. repeat split; reflexivity. Qed.

(** C3, amended. For every text and every line of it: a line that
    contains [// alert(] anywhere is in the output of [replace_alerts] as it
    was, at its place, whatever else is on it, and so is the line
    [// alert('debug');]; a line that contains [alert(], does not contain
    [// alert(] and on which the pattern finds [alert(X)] is rewritten: at
    its place the output has the line with [alert(X)] replaced by the toast
    call, which is no longer the line it was. *)
Theorem C3_comment_guard (content line : str) (i : nat) :
  nth_error (split_nl content) i = Some line ->
  (contains (cp "// alert(") line = true ->
   nth_error (split_nl (replace_alerts content)) i = Some line)
  /\ (forall X,
        contains (cp "alert(") line = true ->
        contains (cp "// alert(") line = false ->
        search_alert line = Some X ->
        nth_error (split_nl (replace_alerts content)) i
        = Some (replace (alert_call X) (toast_call (classify line) X) line)
        /\ replace (alert_call X) (toast_call (classify line) X) line <> line)
  /\ replace_alerts (cp "// alert('debug');") = cp "// alert('debug');".
Proof.
  intros Hi. pose proof (replace_alerts_nth content line i Hi) as Hn.
  split; [|split; [|reflexivity]].
  - intros Hg. now rewrite Hn, replace_alerts_line_comment.
  - intros X Ha Hg Hm.
    assert (E : replace_alerts_line line
                = replace (alert_call X) (toast_call (classify line) X) line).
    { rewrite replace_alerts_line_classify, Ha, Hg, Hm. reflexivity. }
    split; [now rewrite Hn, E|].
    apply replace_alert_call_changes, search_alert_contains, Hm.
Qed.

(** C3, amended, on a text of two lines: a guarded line with a call after
    the comment, and a line with a call. *)
Lemma C3_comment_guard_witness :
  let content :=
    cp "x = 1; // alert('debug'); alert(y)" ++ nl
      :: cp "if (e) alert(e.message);" in
  nth_error (split_nl (replace_alerts content)) 0
  = Some (cp "x = 1; // alert('debug'); alert(y)")
  /\ nth_error (split_nl (replace_alerts content)) 1
     = Some (cp "if (e) toast.info(e.message);").
Proof.
  intros content. split.
  - destruct (C3_comment_guard content
                (cp "x = 1; // alert('debug'); alert(y)") 0 eq_refl)
      as (H & _).
    apply H. reflexivity.
  - destruct (C3_comment_guard content (cp "if (e) alert(e.message);") 1
                eq_refl) as (_ & H & _).
    destruct (H (cp "e.message") eq_refl eq_refl eq_refl) as [E _].
    rewrite E. reflexivity.
Defined.

(** C4, as stated, fails: with a second alert call on the line, or with the
    comment guard on it, [alert(] is still on the line afterwards; and a key
    word inside the literal text, with none elsewhere on the line, already
    changes the severity. *)
Lemma C4_counterexample :
  let a := cp "alert(" ++ string_literal (cp "a") ++ cp ")" in
  let line := a ++ cp "; alert(" ++ string_literal (cp "b") ++ cp ");" in
  contains a line = true
  /\ is_success line = false /\ is_error line = false
  /\ replace_alerts line
     = cp "toast.info(" ++ string_literal (cp "a") ++ cp "); alert("
         ++ string_literal (cp "b") ++ cp ");"
  /\ contains (cp "alert(") (replace_alerts line) = true
  /\ replace_alerts (cp "// " ++ a) = cp "// " ++ a
  /\ replace_alerts (cp "alert(" ++ string_literal (cp "Saved") ++ cp ")")
     = cp "toast.success(" ++ string_literal (cp "Saved") ++ cp ")".
Proof. repeat split; reflexivity. Qed.

(** C4, amended. On a line that contains [alert("literal text")], has no
    other [alert(] and not the comment guard [// alert(], and has no success
    or error key word anywhere, the output contains
    [toast.info("literal text")] and no [alert(]. *)
Theorem C4_literal_alert_to_info (line text : str) :
  ~ In nl line ->
  contains (cp "alert(" ++ string_literal text ++ cp ")") line = true ->
  occurrences (cp "alert(") line = 1 ->
  contains (cp "// alert(") line = false ->
  is_success line = false ->
  is_error line = false ->
  contains (cp "toast.info(" ++ string_literal text ++ cp ")")
    (replace_alerts_line line) = true
  /\ contains (cp "alert(") (replace_alerts_line line) = false
  /\ replace_alerts line = replace_alerts_line line.
Proof.
  intros Hl Hc Ho Hg Hs He.
  apply contains_split in Hc as (pre & post & E).
  rewrite <- !app_assoc in E.
  set (rest := string_literal text ++ cp ")" ++ post) in E.
  assert (Hrest : exists m, lazy_to_rparen rest = Some m).
  { apply lazy_to_rparen_some.
    - intros Hin. apply Hl. rewrite E.
      apply in_or_app; right. apply in_or_app; now right.
    - unfold rest. apply in_or_app; right. now left. }
  destruct Hrest as [m Hm].
  assert (Hv : classify line = Info).
  { unfold classify. now rewrite Hs, He. }
  rewrite E in Ho, Hg.
  pose proof (replace_alerts_line_single pre rest m Ho Hg Hm) as R.
  cbv zeta in R. rewrite <- E in R. rewrite Hv in R.
  split; [|split].
  - rewrite R. unfold rest.
    replace (pre ++ cp "toast." ++ severity_name Info ++ cp "("
               ++ string_literal text ++ cp ")" ++ post)
      with (pre ++ (cp "toast.info(" ++ string_literal text ++ cp ")") ++ post)
      by (now rewrite <- !app_assoc).
    apply contains_app.
  - rewrite R. apply no_alert_left, Ho.
  - now apply replace_alerts_one_line.
Qed.

(** C4, amended, on a line whose literal text has parentheses of its own. *)
Lemma C4_literal_alert_to_info_witness :
  let line := cp "  alert(" ++ string_literal (cp "Hello (world)") ++ cp ");" in
  contains (cp "toast.info(" ++ string_literal (cp "Hello (world)") ++ cp ")")
    (replace_alerts_line line) = true
  /\ contains (cp "alert(") (replace_alerts_line line) = false
  /\ replace_alerts line = replace_alerts_line line.
Proof.
  apply (C4_literal_alert_to_info
           (cp "  alert(" ++ string_literal (cp "Hello (world)") ++ cp ");")
           (cp "Hello (world)")); try reflexivity.
  vm_compute. intuition discriminate.
Defined.

(* ================================================================= *)
(** ** Facts on the pattern for import statements *)

Lemma at_eol_app (t r : str) :
  ~ In nl t -> at_eol r = true ->
  at_eol (t ++ r) = match t with [] => true | _ :: _ => false end.
Proof.
  destruct t as [|c t]; intros Ht Hr; [exact Hr|].
  cbn [app at_eol]. unfold is_nl. destruct (N.eqb_spec c nl) as [->|Hc].
  - exfalso. apply Ht. now left.
  - reflexivity.
Qed.

Lemma at_eol_lazy_none (r : str) :
  at_eol r = true -> lazy_to_semi_eol r = None.
Proof.
  destruct r as [|c r]; [reflexivity|]. cbn [at_eol lazy_to_semi_eol].
  unfold is_nl. destruct (N.eqb_spec c nl) as [->|Hc]; [|discriminate].
  reflexivity.
Qed.

Lemma last_cons_cons (c d : char) (t : str) (x : char) :
  last (c :: d :: t) x = last (d :: t) x.
Proof. reflexivity. Qed.

(** On the rest of a line the lazy star runs to the end of the line, which
    has to be a semicolon. *)
Lemma lazy_to_semi_eol_line (t r : str) :
  ~ In nl t -> at_eol r = true ->
  lazy_to_semi_eol (t ++ r)
  = if N.eqb (last t 0%N) 59 then Some (length t) else None.
Proof.
  intros Ht Hr. induction t as [|c t IH].
  - cbn [app last]. now rewrite at_eol_lazy_none.
  - assert (Ht' : ~ In nl t) by (intros Hin; apply Ht; now right).
    assert (Hc : is_nl c = false).
    { unfold is_nl. destruct (N.eqb_spec c nl) as [->|]; [|reflexivity].
      exfalso. apply Ht. now left. }
    cbn [app lazy_to_semi_eol]. rewrite (at_eol_app t r Ht' Hr), Hc, (IH Ht').
    destruct t as [|d t].
    + cbn [last length option_map]. rewrite andb_true_r.
      now destruct (N.eqb c 59).
    + rewrite andb_false_r, last_cons_cons.
      now destruct (N.eqb (last (d :: t) 0%N) 59).
Qed.

(** After [import], on a line that goes on after the white space, the
    pattern matches when white space comes first and a semicolon last. *)
Lemma spaces_to_semi_eol_line (t r : str) :
  ~ In nl t -> forallb is_space t = false -> at_eol r = true ->
  spaces_to_semi_eol (t ++ r)
  = if match t with c :: _ => is_space c | [] => false end
       && N.eqb (last t 0%N) 59
    then Some (length t) else None.
Proof.
  intros Ht Hb Hr. induction t as [|c t IH]; [discriminate|].
  assert (Ht' : ~ In nl t) by (intros Hin; apply Ht; now right).
  cbn [app spaces_to_semi_eol]. cbn [forallb] in Hb.
  destruct (is_space c); [|reflexivity].
  cbn [andb] in Hb |- *. rewrite (IH Ht' Hb).
  rewrite (lazy_to_semi_eol_line t r Ht' Hr).
  destruct t as [|d t]; [discriminate|].
  rewrite last_cons_cons. cbn [length option_map].
  destruct (is_space d), (N.eqb (last (d :: t) 0%N) 59); reflexivity.
Qed.

Lemma starts_with_import_line (l r : str) :
  at_eol r = true ->
  starts_with (cp "import") (l ++ r) = starts_with (cp "import") l.
Proof.
  intros Hr. destruct r as [|c r]; [now rewrite app_nil_r|].
  cbn [at_eol] in Hr. apply N.eqb_eq in Hr; subst c. unfold nl.
  destruct l as [|c1 [|c2 [|c3 [|c4 [|c5 [|c6 l]]]]]]; simpl;
    rewrite ?andb_false_r; reflexivity.
Qed.

(** At the start of a line that is not [import] and white space only, the
    pattern matches the line when it is an import line, and nothing
    otherwise. *)
Lemma import_match_here_line (l r : str) :
  ~ In nl l -> BySpec.is_bare_import l = false -> at_eol r = true ->
  import_match_here (l ++ r)
  = if BySpec.is_import_line l then Some (length l) else None.
Proof.
  intros Hl Hb Hr. unfold import_match_here, BySpec.is_import_line.
  rewrite (starts_with_import_line l r Hr).
  destruct (starts_with (cp "import") l) eqn:Hs; [|reflexivity].
  apply starts_with_split in Hs as [t ->].
  unfold BySpec.is_bare_import in Hb. rewrite starts_with_app in Hb.
  change (skipn 6 (cp "import" ++ t)) with t in *.
  change (skipn 6 ((cp "import" ++ t) ++ r)) with (t ++ r).
  cbn [andb] in Hb |- *.
  rewrite spaces_to_semi_eol_line; auto.
  - destruct t as [|d t]; [discriminate|].
    change (last (cp "import" ++ d :: t) 0%N) with (last (d :: t) 0%N).
    destruct (is_space d && N.eqb (last (d :: t) 0%N) 59); reflexivity.
  - intros Hin. apply Hl. apply in_or_app. now right.
Qed.

(** ** The matches of the import pattern, line by line *)

Lemma is_nl_false_in (c : char) (l : str) :
  ~ In nl (c :: l) -> is_nl c = false.
Proof.
  intros Hl. unfold is_nl. destruct (N.eqb_spec c nl) as [->|]; [|reflexivity].
  exfalso. apply Hl. now left.
Qed.

(** Passing the rest of a match that ends within the line. *)
Lemma finditer_skip_line (l r : str) (pos : nat) :
  ~ In nl l ->
  finditer_import_go false (length l) pos (l ++ r)
  = finditer_import_go false 0 (pos + length l) r.
Proof.
  revert pos. induction l as [|c l IH]; intros pos Hl.
  - now rewrite Nat.add_0_r.
  - cbn [app length finditer_import_go].
    rewrite (is_nl_false_in c l Hl), IH by (intros Hin; apply Hl; now right).
    f_equal. lia.
Qed.

(** Away from the start of a line nothing matches before the line ends. *)
Lemma finditer_scan_line (l r : str) (pos : nat) :
  ~ In nl l ->
  finditer_import_go false 0 pos (l ++ r)
  = finditer_import_go false 0 (pos + length l) r.
Proof.
  revert pos. induction l as [|c l IH]; intros pos Hl.
  - now rewrite Nat.add_0_r.
  - cbn [app length finditer_import_go].
    rewrite (is_nl_false_in c l Hl), IH by (intros Hin; apply Hl; now right).
    f_equal. lia.
Qed.

(** One line of the text: its span when it is an import line, and then the
    matches after the line break. *)
Lemma finditer_line (l r : str) (pos : nat) :
  ~ In nl l -> BySpec.is_bare_import l = false -> at_eol r = true ->
  finditer_import_go true 0 pos (l ++ r)
  = (if BySpec.is_import_line l then [(pos, pos + length l)] else [])
    ++ match r with
       | [] => []
       | _ :: r' => finditer_import_go true 0 (pos + length l + 1) r'
       end.
Proof.
  intros Hl Hb Hr.
  pose proof (import_match_here_line l r Hl Hb Hr) as Hm.
  assert (Hend : forall p,
             finditer_import_go false 0 p r
             = match r with
               | [] => []
               | _ :: r' => finditer_import_go true 0 (p + 1) r'
               end).
  { intros p. destruct r as [|c r]; [reflexivity|].
    cbn [at_eol] in Hr. cbn [finditer_import_go]. rewrite Hr.
    f_equal. lia. }
  destruct l as [|c l].
  - cbn [app] in *. cbn [BySpec.is_import_line] in Hm.
    change (BySpec.is_import_line []) with false in *. cbn [app length].
    destruct r as [|d r]; [reflexivity|].
    cbn [finditer_import_go]. rewrite Hm. cbn [at_eol] in Hr. rewrite Hr.
    f_equal. lia.
  - assert (Hl' : ~ In nl l) by (intros Hin; apply Hl; now right).
    cbn [app] in *. cbn [finditer_import_go]. rewrite Hm.
    rewrite (is_nl_false_in c l Hl).
    destruct (BySpec.is_import_line (c :: l)).
    + cbn [length Nat.sub]. rewrite Nat.sub_0_r.
      rewrite (finditer_skip_line l r (S pos) Hl'), Hend.
      cbn [app]. f_equal. destruct r; [reflexivity|]. f_equal. lia.
    + rewrite (finditer_scan_line l r (S pos) Hl'), Hend.
      cbn [app length]. destruct r; [reflexivity|]. f_equal. lia.
Qed.

(** The matches in a text with no bare [import] line are the spans of its
    import lines. *)
Lemma finditer_lines (ls : list str) (pos : nat) :
  ls <> [] ->
  Forall (fun l => ~ In nl l) ls ->
  Forall (fun l => BySpec.is_bare_import l = false) ls ->
  finditer_import_go true 0 pos (join_nl ls) = line_spans pos ls.
Proof.
  revert pos. induction ls as [|l ls IH]; intros pos Hne Hnl Hb;
    [contradiction|].
  inversion Hnl as [|? ? Hl Hnl']; inversion Hb as [|? ? Hbl Hb']; subst.
  destruct ls as [|l' ls].
  - cbn [join_nl line_spans]. rewrite <- (app_nil_r l) at 1.
    rewrite (finditer_line l [] pos Hl Hbl eq_refl). reflexivity.
  - change (join_nl (l :: l' :: ls)) with (l ++ nl :: join_nl (l' :: ls)).
    rewrite (finditer_line l (nl :: join_nl (l' :: ls)) pos Hl Hbl eq_refl).
    change (line_spans pos (l :: l' :: ls))
      with ((if BySpec.is_import_line l then [(pos, pos + length l)] else [])
            ++ line_spans (pos + length l + 1) (l' :: ls)).
    f_equal. apply IH; [discriminate | exact Hnl' | exact Hb'].
Qed.

Lemma last_app_r (A : Type) (x y : list A) (d : A) :
  y <> [] -> last (x ++ y) d = last y d.
Proof.
  intros Hy. induction x as [|a x IH]; [reflexivity|].
  cbn [app]. destruct (x ++ y) as [|b z] eqn:E.
  - apply app_eq_nil in E as [_ E]. contradiction.
  - rewrite <- IH. reflexivity.
Qed.

Lemma last_index_some_not_nil (f : str -> bool) (ls : list str) (j : nat) :
  BySpec.last_index f ls = Some j -> ls <> [].
Proof. destruct ls; [discriminate | discriminate]. Qed.

(** What [last_index] finds: a line for which [f] holds, with none after. *)
Lemma last_index_spec (f : str -> bool) (ls : list str) (j : nat) :
  BySpec.last_index f ls = Some j ->
  (exists l, nth_error ls j = Some l /\ f l = true)
  /\ (forall k l, j < k -> nth_error ls k = Some l -> f l = false).
Proof.
  revert j. induction ls as [|l ls IH]; intros j Hj; [discriminate|].
  cbn [BySpec.last_index] in Hj.
  destruct (BySpec.last_index f ls) as [i|] eqn:Hi.
  - injection Hj as <-. destruct (IH i eq_refl) as [Hat Hafter].
    split; [exact Hat|].
    intros [|k] x Hk Hx; [lia|]. apply (Hafter k x); [lia | exact Hx].
  - destruct (f l) eqn:Hf; [|discriminate]. injection Hj as <-.
    split; [now exists l|].
    intros [|k] x Hk Hx; [lia|]. cbn [nth_error] in Hx.
    clear IH Hk. revert k Hx.
    induction ls as [|y ls IHls]; intros k Hx; [now destruct k|].
    cbn [BySpec.last_index] in Hi.
    destruct (BySpec.last_index f ls) eqn:Hi'; [discriminate|].
    destruct (f y) eqn:Hy; [discriminate|].
    destruct k as [|k]; [cbn in Hx; congruence|].
    now apply (IHls eq_refl k).
Qed.


(** The last span is the end of the last import line. *)
Lemma line_spans_last (ls : list str) (pos : nat) :
  match BySpec.last_index BySpec.is_import_line ls with
  | Some j =>
      line_spans pos ls <> []
      /\ forall d, snd (last (line_spans pos ls) d)
                   = pos + length (join_nl (firstn (S j) ls))
  | None => line_spans pos ls = []
  end.
Proof.
  revert pos. induction ls as [|l ls IH]; intros pos; [reflexivity|].
  cbn [BySpec.last_index line_spans].
  specialize (IH (pos + length l + 1)).
  destruct (BySpec.last_index BySpec.is_import_line ls) as [j|] eqn:Hj.
  - destruct IH as [Hne Hlast]. split.
    + intros E. apply app_eq_nil in E as [_ E]. contradiction.
    + intros d. rewrite last_app_r by exact Hne. rewrite Hlast.
      destruct ls as [|l' ls]; [discriminate|].
      change (join_nl (firstn (S (S j)) (l :: l' :: ls)))
        with (l ++ nl :: join_nl (firstn (S j) (l' :: ls))).
      rewrite length_app. cbn [length]. lia.
  - rewrite IH, app_nil_r.
    destruct (BySpec.is_import_line l); [|reflexivity].
    split; [discriminate|]. intros d.
    cbn [last snd firstn join_nl]. reflexivity.
Qed.

Lemma join_nl_app (a b : list str) :
  a <> [] ->
  join_nl (a ++ b)
  = join_nl a ++ match b with [] => [] | _ :: _ => nl :: join_nl b end.
Proof.
  induction a as [|x a IH]; intros Ha; [contradiction|].
  destruct a as [|y a].
  - cbn [app join_nl]. destruct b; [now rewrite app_nil_r | reflexivity].
  - change (join_nl ((x :: y :: a) ++ b))
      with (x ++ nl :: join_nl ((y :: a) ++ b)).
    rewrite IH by discriminate.
    change (join_nl (x :: y :: a)) with (x ++ nl :: join_nl (y :: a)).
    now rewrite <- app_assoc.
Qed.

(** Cutting a text at the end of its line [j] and putting a line in. *)
Lemma insert_line_after (ls : list str) (j : nat) (new : str) :
  ls <> [] ->
  let e := length (join_nl (firstn (S j) ls)) in
  firstn e (join_nl ls) ++ (nl :: new) ++ skipn e (join_nl ls)
  = join_nl (firstn (S j) ls ++ new :: skipn (S j) ls).
Proof.
  intros Hne e.
  assert (Ha : firstn (S j) ls <> []) by (destruct ls; [contradiction | discriminate]).
  assert (E : join_nl ls
              = join_nl (firstn (S j) ls)
                ++ match skipn (S j) ls with
                   | [] => []
                   | _ :: _ => nl :: join_nl (skipn (S j) ls)
                   end).
  { rewrite <- join_nl_app by exact Ha. now rewrite firstn_skipn. }
  rewrite E, join_nl_app by exact Ha. subst e.
  rewrite firstn_app, firstn_all, Nat.sub_diag, firstn_0, app_nil_r.
  rewrite skipn_app, skipn_all, Nat.sub_diag, skipn_0. cbn [app].
  f_equal. f_equal.
  destruct (skipn (S j) ls) as [|x b]; [|reflexivity].
  cbn [join_nl]. now rewrite app_nil_r.
Qed.

(** On a text with no bare [import] line the matches are the import lines. *)
Lemma finditer_import_lines (content : str) :
  Forall (fun l => BySpec.is_bare_import l = false) (split_nl content) ->
  finditer_import content = line_spans 0 (split_nl content).
Proof.
  intros Hb. unfold finditer_import.
  rewrite <- (join_split_nl content) at 1.
  apply finditer_lines;
    [apply split_nl_not_nil | apply split_nl_no_nl | exact Hb].
Qed.


(* ================================================================= *)
(** ** importEnsure: the claims *)

(** C5, as stated, fails: the white space after [import] may run over line
    breaks, so a match may end on a later line than the last line that reads
    [import <anything>;], and the new line goes after the match. *)
Lemma C5_counterexample :
  let content := cp "import a;" ++ nl :: cp "import" ++ nl :: cp "foo;" in
  contains (cp "import { toast }") content = false
  /\ contains (cp "import toast") content = false
  /\ map BySpec.is_import_line (split_nl content) = [true; false; false]
  /\ BySpec.importEnsure content
     = cp "import a;" ++ nl :: toast_import_line
         ++ nl :: cp "import" ++ nl :: cp "foo;"
  /\ add_toast_import content
     = cp "import a;" ++ nl :: cp "import" ++ nl :: cp "foo;"
         ++ nl :: toast_import_line
  /\ add_toast_import content <> BySpec.importEnsure content.
Proof.
  repeat split; try reflexivity. vm_compute. discriminate.
Qed.

(** C5, amended. On a text that has neither spelling of the toast import,
    has no line that is [import] followed by white space only, and has a
    line that reads [import <anything>;], the new import line is put right
    after the last such line; the lines before it and after it are the
    lines of the text as they were. *)
Theorem C5_import_after_last_import_line (content : str) (j : nat) :
  contains (cp "import { toast }") content = false ->
  contains (cp "import toast") content = false ->
  Forall (fun l => BySpec.is_bare_import l = false) (split_nl content) ->
  BySpec.last_index BySpec.is_import_line (split_nl content) = Some j ->
  let ls := split_nl content in
  add_toast_import content
  = join_nl (firstn (S j) ls ++ toast_import_line :: skipn (S j) ls)
  /\ split_nl (add_toast_import content)
     = firstn (S j) ls ++ toast_import_line :: skipn (S j) ls
  /\ (exists l, nth_error ls j = Some l /\ BySpec.is_import_line l = true)
  /\ (forall k l, j < k -> nth_error ls k = Some l ->
                  BySpec.is_import_line l = false)
  /\ add_toast_import content = BySpec.importEnsure content.
Proof.
  intros H1 H2 Hb Hj ls.
  assert (E : add_toast_import content
              = join_nl (firstn (S j) ls ++ toast_import_line :: skipn (S j) ls)).
  { unfold add_toast_import. rewrite H1, H2. cbn [orb].
    rewrite (finditer_import_lines content Hb). fold ls.
    pose proof (line_spans_last ls 0) as Hlast. unfold ls in Hlast at 1.
    rewrite Hj in Hlast. destruct Hlast as [Hne Hlast].
    destruct (line_spans 0 ls) as [|sp sps] eqn:Hsp; [contradiction|].
    rewrite Hlast. cbn [Nat.add].
    rewrite <- (join_split_nl content) at 1 2. fold ls.
    apply (insert_line_after ls j toast_import_line).
    apply split_nl_not_nil. }
  split; [exact E|]. split; [|split; [|split]].
  - rewrite E. apply split_join_nl.
    + destruct (firstn (S j) ls); discriminate.
    + pose proof (split_nl_no_nl content) as Hnl. fold ls in Hnl.
      rewrite <- (firstn_skipn (S j) ls) in Hnl.
      apply Forall_app in Hnl as [Hf Hs].
      apply Forall_app. split; [exact Hf|].
      constructor; [|exact Hs].
      vm_compute. intuition discriminate.
  - apply (last_index_spec _ _ _ Hj).
  - apply (last_index_spec _ _ _ Hj).
  - rewrite E. subst ls. unfold BySpec.importEnsure.
    rewrite H1, H2. cbn [orb]. cbv zeta. now rewrite Hj.
Qed.

(** C5, amended, on a text with two import lines and code after them. *)
Lemma C5_import_after_last_import_line_witness :
  add_toast_import
    (cp "import React from 'react';" ++ nl :: cp "import x from './x';"
       ++ nl :: nl :: cp "const a = 1;")
  = cp "import React from 'react';" ++ nl :: cp "import x from './x';"
      ++ nl :: toast_import_line ++ nl :: nl :: cp "const a = 1;".
Proof.
  destruct (C5_import_after_last_import_line
              (cp "import React from 'react';" ++ nl :: cp "import x from './x';"
                 ++ nl :: nl :: cp "const a = 1;") 1)
    as [E _].
  - reflexivity.
  - reflexivity.
  - vm_compute. repeat constructor.
  - reflexivity.
  - rewrite E. reflexivity.
Defined.



(* ================================================================= *)
(** ** processFile and run: the claims *)

Section ScriptFacts.

Context {fs : Type} `{FileSystem fs}.

(** The loop of [main] prints one line for each file, in the order of the
    list, and counts the files that were processed. *)
Lemma main_loop_trace (files : list str) (disk : fs) (out : list str)
    (n : nat) :
  exists disk' logs,
    fold_left main_step files (disk, out, n)
    = (disk', out ++ logs,
       n + length (filter (starts_with [check_mark]) logs))
    /\ Forall2 (fun filepath line =>
                  line = msg_processed filepath
                  \/ (exists e, line = msg_error filepath e)
                  \/ line = msg_not_found filepath)
         files logs.
Proof.
  revert disk out n. induction files as [|p files IH]; intros disk out n.
  - exists disk, []. cbn. rewrite app_nil_r, Nat.add_0_r. now split.
  - cbn [fold_left].
    assert (Hstep : exists d1 line k,
               main_step (disk, out, n) p = (d1, out ++ [line], n + k)
               /\ k = length (filter (starts_with [check_mark]) [line])
               /\ (line = msg_processed p
                   \/ (exists e, line = msg_error p e)
                   \/ line = msg_not_found p)).
    { cbn [main_step]. destruct (path_exists p disk).
      - unfold process_file, process_file_with.
        destruct (read_text p disk) as [c|e].
        + destruct (write_text p _ disk) as [d1 [[]|e]].
          * exists d1, (msg_processed p), 1. cbn.
            repeat split; [f_equal; lia | now left].
          * exists d1, (msg_error p e), 0. cbn.
            rewrite Nat.add_0_r. repeat split. right; left. now exists e.
        + exists disk, (msg_error p e), 0. cbn.
          rewrite Nat.add_0_r. repeat split. right; left. now exists e.
      - exists disk, (msg_not_found p), 0. cbn.
        rewrite Nat.add_0_r. repeat split. now right; right. }
    destruct Hstep as (d1 & line & k & -> & Hk & Hline).
    destruct (IH d1 (out ++ [line]) (n + k)) as (d2 & logs & -> & Hall).
    exists d2, (line :: logs). split.
    + rewrite <- app_assoc. cbn [app]. f_equal.
      change (line :: logs) with ([line] ++ logs).
      rewrite filter_app, length_app, <- Hk. lia.
    + now constructor.
Qed.

(** While no file of the list exists the loop only reports them. *)
Lemma main_loop_none_exists (files : list str) (disk : fs)
    (out : list str) (n : nat) :
  Forall (fun filepath => path_exists filepath disk = false) files ->
  fold_left main_step files (disk, out, n)
  = (disk, out ++ map msg_not_found files, n).
Proof.
  intros Hall. revert out.
  induction Hall as [|p files Hp _ IH]; intros out.
  - cbn. now rewrite app_nil_r.
  - cbn [fold_left main_step]. rewrite Hp, IH, <- app_assoc. reflexivity.
Qed.

(** The loop of [main] does what [visit] says. *)
Lemma main_loop_visit (files : list str) (disk : fs) (out : list str)
    (n : nat) :
  fold_left main_step files (disk, out, n)
  = (fst (fst (visit files disk)), out ++ snd (fst (visit files disk)),
     n + snd (visit files disk)).
Proof.
  revert disk out n. induction files as [|p files IH]; intros disk out n.
  - cbn. now rewrite app_nil_r, Nat.add_0_r.
  - cbn [fold_left main_step visit]. destruct (path_exists p disk).
    + destruct (process_file p disk) as [[d1 printed] ok].
      rewrite IH. destruct (visit files d1) as [[d2 logs] k].
      cbn [fst snd]. rewrite <- app_assoc.
      f_equal. destruct ok; lia.
    + rewrite IH. destruct (visit files disk) as [[d2 logs] k].
      cbn [fst snd]. rewrite <- app_assoc. reflexivity.
Qed.

(** C7. [process_file] returns [True] exactly when the read, the two
    in-memory steps and the write all succeed, and then prints the
    processed line.  When a step raises it returns [False] and prints one
    line that reads [Error processing], the path and the message of the
    step that raised.  The disk changes only through the write, which
    comes after both in-memory steps: when the read raises, or the read
    succeeds and a step before the write raises, the disk is as it was.
    The steps of [process_file] itself are [add_toast_import] and
    [replace_alerts], so that what it writes is the text read with both
    applied. *)
Theorem C7_process_file_outcome
    (import_step replace_step : str -> result str)
    (filepath : str) (disk : fs) :
  let outcome := process_file_with import_step replace_step filepath disk in
  let processed_line := 10003%N :: cp " Processed: " ++ filepath in
  let error_line := fun e =>
    10007%N :: cp " Error processing " ++ filepath ++ cp ": " ++ e in
  (snd outcome = true <->
   exists c c1 c2,
     read_text filepath disk = Ok c
     /\ import_step c = Ok c1
     /\ replace_step c1 = Ok c2
     /\ snd (write_text filepath c2 disk) = Ok tt)
  /\ (snd outcome = true -> snd (fst outcome) = [processed_line])
  /\ (snd outcome = false ->
      exists e,
        snd (fst outcome) = [error_line e]
        /\ contains filepath (error_line e) = true
        /\ contains e (error_line e) = true
        /\ (read_text filepath disk = Raise e
            \/ (exists c,
                  read_text filepath disk = Ok c /\ import_step c = Raise e)
            \/ (exists c c1,
                  read_text filepath disk = Ok c /\ import_step c = Ok c1
                  /\ replace_step c1 = Raise e)
            \/ (exists c c1 c2,
                  read_text filepath disk = Ok c /\ import_step c = Ok c1
                  /\ replace_step c1 = Ok c2
                  /\ snd (write_text filepath c2 disk) = Raise e)))
  /\ (forall e,
        read_text filepath disk = Raise e ->
        outcome = (disk, [error_line e], false))
  /\ (forall c e,
        read_text filepath disk = Ok c ->
        import_step c = Raise e
        \/ (exists c1, import_step c = Ok c1 /\ replace_step c1 = Raise e) ->
        outcome = (disk, [error_line e], false))
  /\ (forall c c1 c2 disk' e,
        read_text filepath disk = Ok c ->
        import_step c = Ok c1 ->
        replace_step c1 = Ok c2 ->
        write_text filepath c2 disk = (disk', Raise e) ->
        outcome = (disk', [error_line e], false))
  /\ (forall c c1 c2 disk',
        read_text filepath disk = Ok c ->
        import_step c = Ok c1 ->
        replace_step c1 = Ok c2 ->
        write_text filepath c2 disk = (disk', Ok tt) ->
        outcome = (disk', [processed_line], true))
  /\ (fst (fst outcome) <> disk ->
      exists c c1 c2,
        read_text filepath disk = Ok c
        /\ import_step c = Ok c1
        /\ replace_step c1 = Ok c2
        /\ fst (fst outcome) = fst (write_text filepath c2 disk))
  /\ (snd (process_file filepath disk) = true <->
      exists c,
        read_text filepath disk = Ok c
        /\ snd (write_text filepath (replace_alerts (add_toast_import c)) disk)
           = Ok tt)
  /\ (forall c,
        read_text filepath disk = Ok c ->
        fst (fst (process_file filepath disk))
        = fst (write_text filepath (replace_alerts (add_toast_import c)) disk)).
Proof.
  intros outcome processed_line error_line.
  assert (Hpath : forall e, contains filepath (error_line e) = true).
  { intros e. unfold error_line.
    change (10007%N :: cp " Error processing " ++ filepath ++ cp ": " ++ e)
      with ((10007%N :: cp " Error processing ") ++ filepath ++ cp ": " ++ e).
    apply contains_app. }
  assert (Hmsg : forall e, contains e (error_line e) = true).
  { intros e. unfold error_line.
    replace (10007%N :: cp " Error processing " ++ filepath ++ cp ": " ++ e)
      with ((10007%N :: cp " Error processing " ++ filepath ++ cp ": ")
              ++ e ++ [])
      by (rewrite app_nil_r; cbn [app]; now rewrite <- !app_assoc).
    apply contains_app. }
  subst outcome. unfold process_file, process_file_with.
  repeat match goal with |- _ /\ _ => split end.
  - destruct (read_text filepath disk) as [c|e] eqn:Hr.
    + destruct (import_step c) as [c1|e] eqn:Hi.
      * destruct (replace_step c1) as [c2|e] eqn:Hp.
        -- destruct (write_text filepath c2 disk) as [d [[]|e]] eqn:Hw.
           ++ split; [|reflexivity]. intros _. exists c, c1, c2.
              rewrite Hi, Hp, Hw. now repeat split.
           ++ split; [discriminate|].
              intros (x & x1 & x2 & E & E1 & E2 & Ew).
              injection E as <-. rewrite Hi in E1. injection E1 as <-.
              rewrite Hp in E2. injection E2 as <-.
              rewrite Hw in Ew. discriminate.
        -- split; [discriminate|].
           intros (x & x1 & x2 & E & E1 & E2 & _).
           injection E as <-. rewrite Hi in E1. injection E1 as <-.
           rewrite Hp in E2. discriminate.
      * split; [discriminate|]. intros (x & x1 & x2 & E & E1 & _).
        injection E as <-. rewrite Hi in E1. discriminate.
    + split; [discriminate|]. intros (x & x1 & x2 & E & _). discriminate.
  - destruct (read_text filepath disk) as [c|e]; [|discriminate].
    destruct (import_step c) as [c1|e]; [|discriminate].
    destruct (replace_step c1) as [c2|e]; [|discriminate].
    destruct (write_text filepath c2 disk) as [d [[]|e]];
      [reflexivity | discriminate].
  - destruct (read_text filepath disk) as [c|e] eqn:Hr;
      [|intros _; exists e; repeat split; auto].
    destruct (import_step c) as [c1|e] eqn:Hi;
      [|intros _; exists e; repeat split; auto;
        right; left; now exists c].
    destruct (replace_step c1) as [c2|e] eqn:Hp;
      [|intros _; exists e; repeat split; auto;
        right; right; left; now exists c, c1].
    destruct (write_text filepath c2 disk) as [d [[]|e]] eqn:Hw;
      [discriminate|].
    intros _. exists e. repeat split; auto.
    right; right; right. exists c, c1, c2. now rewrite Hw.
  - now intros e ->.
  - intros c e -> [-> | (c1 & -> & ->)]; reflexivity.
  - now intros c c1 c2 d e -> -> -> ->.
  - now intros c c1 c2 d -> -> -> ->.
  - destruct (read_text filepath disk) as [c|e]; [|now intros []].
    destruct (import_step c) as [c1|e] eqn:Hi; [|now intros []].
    destruct (replace_step c1) as [c2|e] eqn:Hp; [|now intros []].
    intros _. exists c, c1, c2.
    now destruct (write_text filepath c2 disk) as [d [[]|e]].
  - destruct (read_text filepath disk) as [c|e] eqn:Hr.
    + destruct (write_text filepath _ disk) as [d [[]|e]] eqn:Hw.
      * split; [|reflexivity]. intros _. exists c. now rewrite Hw.
      * split; [discriminate|]. intros (x & E & Ew).
        injection E as <-. rewrite Hw in Ew. discriminate.
    + split; [discriminate|]. intros (x & E & _). discriminate.
  - intros c ->.
    now destruct (write_text filepath _ disk) as [d [[]|e]].
Qed.

(** C8. [run] goes through the list in order and prints one line for each
    file.  A path that does not exist gets the line that reads
    [File not found] and the path, and leaves the counter and the disk as
    they were; a path that exists goes to [process_file], and the counter
    goes up by one exactly when that returns [True].  At the end [run]
    prints [Completed! Processed X/N files] with X that counter, which is
    also the number of processed lines printed, and N the length of the
    list; while no path of the list exists, X is 0. *)
Theorem C8_run_summary (files : list str) (disk : fs) :
  let not_found_line := fun filepath =>
    10007%N :: cp " File not found: " ++ filepath in
  let summary := fun successes : nat =>
    nl :: cp "Completed! Processed " ++ str_of_nat successes ++ cp "/"
       ++ str_of_nat (length files) ++ cp " files" in
  (forall filepath (d : fs) out n,
      path_exists filepath d = false ->
      main_step (d, out, n) filepath
      = (d, out ++ [not_found_line filepath], n))
  /\ (forall filepath (d : fs) out n,
        path_exists filepath d = true ->
        main_step (d, out, n) filepath
        = (fst (fst (process_file filepath d)),
           out ++ snd (fst (process_file filepath d)),
           if snd (process_file filepath d) then S n else n))
  /\ run files disk
     = (fst (fst (visit files disk)),
        cp "Starting alert to toast replacement..."
          :: snd (fst (visit files disk))
          ++ [summary (snd (visit files disk))])
  /\ Forall2 (fun filepath line =>
                line = 10003%N :: cp " Processed: " ++ filepath
                \/ (exists e,
                      line = 10007%N :: cp " Error processing " ++ filepath
                               ++ cp ": " ++ e)
                \/ line = not_found_line filepath)
       files (snd (fst (visit files disk)))
  /\ snd (visit files disk)
     = length (filter (starts_with [10003%N]) (snd (fst (visit files disk))))
  /\ snd (visit files disk) <= length files
  /\ (Forall (fun filepath => path_exists filepath disk = false) files ->
      run files disk
      = (disk, cp "Starting alert to toast replacement..."
                 :: map not_found_line files ++ [summary 0])).
Proof.
  intros not_found_line summary.
  destruct (main_loop_trace files disk [] 0) as (d' & logs & Et & Hall).
  rewrite main_loop_visit in Et. cbn [app Nat.add] in Et.
  injection Et as _ El Ek.
  split; [|split; [|split; [|split; [|split; [|split]]]]].
  - intros p d out n Hp. cbn [main_step]. now rewrite Hp.
  - intros p d out n Hp. cbn [main_step]. rewrite Hp.
    now destruct (process_file p d) as [[d1 printed] ok].
  - unfold run. rewrite main_loop_visit. reflexivity.
  - rewrite El. exact Hall.
  - rewrite Ek, El. reflexivity.
  - rewrite Ek, (Forall2_length Hall). apply filter_length_le.
  - intros Hnone. unfold run. now rewrite main_loop_none_exists.
Qed.

End ScriptFacts.

(** C7 on the disk in memory: a file that is rewritten; a file protected
    against writing; a path with no file; and the file that would be
    rewritten, with a step that raises before the write, which leaves the
    disk as it was. *)
Lemma C7_process_file_outcome_witness :
  process_file (cp "a.tsx") Samples.two_files
  = (Samples.two_files_after, [10003%N :: cp " Processed: a.tsx"], true)
  /\ process_file (cp "b.tsx") Samples.two_files
     = (Samples.two_files,
        [10007%N :: cp " Error processing b.tsx: [Errno 13] Permission denied: 'b.tsx'"],
        false)
  /\ process_file (cp "c.tsx") Samples.two_files
     = (Samples.two_files,
        [10007%N :: cp " Error processing c.tsx: [Errno 2] No such file or directory: 'c.tsx'"],
        false)
  /\ process_file_with (fun c => Ok (add_toast_import c))
       (fun _ => Raise (cp "out of memory")) (cp "a.tsx") Samples.two_files
     = (Samples.two_files,
        [10007%N :: cp " Error processing a.tsx: out of memory"], false).
Proof.
  split; [|split; [|split]].
  - destruct (C7_process_file_outcome
                (fun c => Ok (add_toast_import c))
                (fun c => Ok (replace_alerts c))
                (cp "a.tsx") Samples.two_files)
      as (_ & _ & _ & _ & _ & _ & Hok & _).
    apply (Hok (cp "import a from 'a';" ++ nl :: cp "alert('Saved');")
               _ _ _ eq_refl eq_refl eq_refl).
    reflexivity.
  - destruct (C7_process_file_outcome
                (fun c => Ok (add_toast_import c))
                (fun c => Ok (replace_alerts c))
                (cp "b.tsx") Samples.two_files)
      as (_ & _ & _ & _ & _ & Hw & _).
    apply (Hw (cp "alert('x');") _ _ _ _ eq_refl eq_refl eq_refl).
    reflexivity.
  - destruct (C7_process_file_outcome
                (fun c => Ok (add_toast_import c))
                (fun c => Ok (replace_alerts c))
                (cp "c.tsx") Samples.two_files) as (_ & _ & _ & Hr & _).
    apply Hr. reflexivity.
  - destruct (C7_process_file_outcome
                (fun c => Ok (add_toast_import c))
                (fun _ => Raise (cp "out of memory"))
                (cp "a.tsx") Samples.two_files)
      as (_ & _ & _ & _ & Hs & _).
    apply (Hs (cp "import a from 'a';" ++ nl :: cp "alert('Saved');")
              (cp "out of memory") eq_refl).
    right. eexists. split; reflexivity.
Defined.

(** C8 on an empty disk, where none of the sixteen files is found, and on a
    list of three paths over the disk in memory. *)
Lemma C8_run_summary_witness :
  main ([] : MemDisk.disk)
  = ([], cp "Starting alert to toast replacement..."
           :: map (fun filepath => 10007%N :: cp " File not found: " ++ filepath)
                files_to_update
           ++ [nl :: cp "Completed! Processed 0/16 files"])
  /\ run [cp "b.tsx"; cp "c.tsx"; cp "a.tsx"] Samples.two_files
     = (Samples.two_files_after,
        [cp "Starting alert to toast replacement...";
         10007%N :: cp " Error processing b.tsx: [Errno 13] Permission denied: 'b.tsx'";
         10007%N :: cp " File not found: c.tsx";
         10003%N :: cp " Processed: a.tsx";
         nl :: cp "Completed! Processed 1/3 files"]).
Proof.
  split.
  - destruct (C8_run_summary files_to_update ([] : MemDisk.disk))
      as (_ & _ & _ & _ & _ & _ & Hnone).
    unfold main. rewrite Hnone; [reflexivity|].
    vm_compute. repeat constructor.
  - destruct (C8_run_summary [cp "b.tsx"; cp "c.tsx"; cp "a.tsx"]
                Samples.two_files) as (_ & _ & E & _).
    rewrite E. reflexivity.
Defined.

(* ================================================================= *)
(** * Further properties of the script *)

(** ** The matches of the import pattern in any text *)

Lemma lazy_to_semi_eol_sound (s : str) (n : nat) :
  lazy_to_semi_eol s = Some n ->
  exists m b,
    s = m ++ b /\ length m = n /\ last m 0%N = 59%N /\ at_eol b = true
    /\ 1 <= n.
Proof.
  revert n. induction s as [|c s IH]; intros n Hn; [discriminate|].
  cbn [lazy_to_semi_eol] in Hn.
  destruct (N.eqb_spec c 59) as [->|Hc].
  - destruct (at_eol s) eqn:He.
    + injection Hn as <-. exists [59%N], s. now repeat split.
    + cbn [andb] in Hn. destruct (is_nl 59%N); [discriminate|].
      destruct (lazy_to_semi_eol s) as [k|]; [|discriminate].
      injection Hn as <-.
      destruct (IH k eq_refl) as (m & b & -> & Hm & Hl & Hb & Hk).
      exists (59%N :: m), b. repeat split; cbn [length]; try lia; auto.
      destruct m; [cbn in Hm; lia | exact Hl].
  - cbn [andb] in Hn. destruct (is_nl c); [discriminate|].
    destruct (lazy_to_semi_eol s) as [k|]; [|discriminate].
    injection Hn as <-.
    destruct (IH k eq_refl) as (m & b & -> & Hm & Hl & Hb & Hk).
    exists (c :: m), b. repeat split; cbn [length]; try lia; auto.
    destruct m; [cbn in Hm; lia | exact Hl].
Qed.

Lemma spaces_to_semi_eol_sound (s : str) (n : nat) :
  spaces_to_semi_eol s = Some n ->
  exists m b,
    s = m ++ b /\ length m = n
    /\ (exists c, nth_error m 0 = Some c /\ is_space c = true)
    /\ last m 0%N = 59%N /\ at_eol b = true /\ 2 <= n.
Proof.
  revert n. induction s as [|c s IH]; intros n Hn; [discriminate|].
  cbn [spaces_to_semi_eol] in Hn.
  destruct (is_space c) eqn:Hc; [|discriminate].
  destruct (spaces_to_semi_eol s) as [k|].
  - injection Hn as <-.
    destruct (IH k eq_refl) as (m & b & -> & Hm & _ & Hl & Hb & Hk).
    exists (c :: m), b. repeat split; cbn [length]; try lia; auto.
    + now exists c.
    + destruct m; [cbn in Hm; lia | exact Hl].
  - destruct (lazy_to_semi_eol s) as [k|] eqn:Hk; [|discriminate].
    injection Hn as <-.
    destruct (lazy_to_semi_eol_sound s k Hk) as (m & b & -> & Hm & Hl & Hb & Hk1).
    exists (c :: m), b. repeat split; cbn [length]; try lia; auto.
    + now exists c.
    + destruct m; [cbn in Hm; lia | exact Hl].
Qed.

Lemma import_match_here_sound (s : str) (n : nat) :
  import_match_here s = Some n ->
  exists m b,
    s = m ++ b /\ length m = n
    /\ starts_with (cp "import") m = true
    /\ (exists c, nth_error m 6 = Some c /\ is_space c = true)
    /\ last m 0%N = 59%N /\ at_eol b = true /\ 8 <= n.
Proof.
  unfold import_match_here. intros Hn.
  destruct (starts_with (cp "import") s) eqn:Hs; [|discriminate].
  apply starts_with_split in Hs as [t ->].
  change (skipn 6 (cp "import" ++ t)) with t in Hn.
  destruct (spaces_to_semi_eol t) as [k|] eqn:Hk; [|discriminate].
  injection Hn as <-.
  destruct (spaces_to_semi_eol_sound t k Hk)
    as (m & b & -> & Hm & Hsp & Hl & Hb & Hk2).
  exists (cp "import" ++ m), b. rewrite <- app_assoc.
  split; [reflexivity|]. split; [rewrite length_app, Hm; reflexivity|].
  split; [apply starts_with_app|]. split; [exact Hsp|].
  split; [|split; [exact Hb | lia]].
  destruct m as [|d m]; [cbn in Hm; lia|]. exact Hl.
Qed.

Lemma spans_in_order_le (from from' : nat) (spans : list (nat * nat)) :
  from' <= from -> spans_in_order from spans -> spans_in_order from' spans.
Proof.
  destruct spans as [|[s e] rest]; [trivial|].
  cbn [spans_in_order]. intros Hle (H1 & H2 & H3). repeat split; auto. lia.
Qed.

Lemma last_snoc (p : str) (c d : char) : last (p ++ [c]) d = c.
Proof. apply last_last. Qed.

(** What the scan keeps: every span is a match in the text, of eight code
    points or more, and the spans are in order.  [p] is the part of the
    text already passed. *)
Lemma finditer_import_go_sound (s p : str) (bol : bool) (skip : nat) :
  (bol = true -> p = [] \/ last p 0%N = nl) ->
  Forall (fun span => import_span (p ++ s) span /\ fst span + 8 <= snd span)
    (finditer_import_go bol skip (length p) s)
  /\ spans_in_order (length p + skip)
       (finditer_import_go bol skip (length p) s).
Proof.
  revert p bol skip. induction s as [|c s IH]; intros p bol skip Hbol.
  - cbn. split; [constructor | exact I].
  - assert (Hnext : is_nl c = true -> p ++ [c] = [] \/ last (p ++ [c]) 0%N = nl).
    { intros Hc. right. rewrite last_snoc. now apply N.eqb_eq in Hc. }
    assert (Hlen : length (p ++ [c]) = S (length p))
      by (rewrite length_app; cbn; lia).
    assert (Htxt : (p ++ [c]) ++ s = p ++ c :: s)
      by (now rewrite <- app_assoc).
    cbn [finditer_import_go]. destruct skip as [|k].
    + destruct (if bol then import_match_here (c :: s) else None)
        as [n|] eqn:Hm.
      * destruct bol; [|discriminate].
        destruct (import_match_here_sound _ _ Hm)
          as (m & b & E & Hlm & Hs & Hsp & Hl & Hb & Hn).
        destruct (IH (p ++ [c]) (is_nl c) (n - 1) Hnext) as [Hall Hord].
        rewrite Hlen, Htxt in Hall. rewrite Hlen in Hord. split.
        -- constructor; [|exact Hall]. cbn [fst snd]. split; [|lia].
           exists p, m, b. rewrite E. cbn [fst snd].
           split; [reflexivity|]. split; [reflexivity|]. split; [lia|].
           split; [now apply Hbol|]. now repeat split.
        -- cbn [spans_in_order]. split; [lia|]. split; [lia|].
           replace (length p + n) with (S (length p) + (n - 1)) by lia.
           exact Hord.
      * destruct (IH (p ++ [c]) (is_nl c) 0 Hnext) as [Hall Hord].
        rewrite Hlen, Htxt in Hall. rewrite Hlen in Hord.
        split; [exact Hall|].
        apply (spans_in_order_le (S (length p) + 0)); [lia | exact Hord].
    + destruct (IH (p ++ [c]) (is_nl c) k Hnext) as [Hall Hord].
      rewrite Hlen, Htxt in Hall. rewrite Hlen in Hord.
      split; [exact Hall|].
      replace (length p + S k) with (S (length p) + k) by lia. exact Hord.
Qed.

Lemma finditer_import_sound (content : str) :
  Forall (fun span => import_span content span /\ fst span + 8 <= snd span)
    (finditer_import content)
  /\ spans_in_order 0 (finditer_import content).
Proof.
  destruct (finditer_import_go_sound content [] true 0) as [Hall Hord];
    [now left|].
  split; [exact Hall | exact Hord].
Qed.

(** X4. Every match [re.finditer] returns for the import pattern, on any
    text, begins at the start of a line with [import] and white space, ends
    with a semicolon at the end of a line and lies within the text; it has
    eight code points or more; the matches come from the left and do not
    overlap. *)
Theorem X4_finditer_import_spans (content : str) :
  Forall (import_span content) (finditer_import content)
  /\ spans_in_order 0 (finditer_import content)
  /\ Forall (fun span => fst span + 8 <= snd span
                         /\ snd span <= length content)
       (finditer_import content).
Proof.
  destruct (finditer_import_sound content) as [Hall Hord].
  split; [|split; [exact Hord|]].
  - eapply Forall_impl; [|exact Hall]. now intros span [Hs _].
  - eapply Forall_impl; [|exact Hall].
    intros [s e] [(a & m & b & -> & Ha & He & _) Hlen].
    cbn [fst snd] in *. split; [exact Hlen|].
    rewrite !length_app. lia.
Qed.

(** ** importEnsure on any text *)

Lemma last_in (A : Type) (l : list A) (d : A) : l <> [] -> In (last l d) l.
Proof.
  induction l as [|a l IH]; intros Hl; [contradiction|].
  destruct l as [|b l]; [now left|].
  right. apply IH. discriminate.
Qed.

Lemma firstn_app_exact (A : Type) (a b : list A) :
  firstn (length a) (a ++ b) = a.
Proof.
  now rewrite firstn_app, firstn_all, Nat.sub_diag, firstn_0, app_nil_r.
Qed.

Lemma skipn_app_exact (A : Type) (a b : list A) :
  skipn (length a) (a ++ b) = b.
Proof. now rewrite skipn_app, skipn_all, Nat.sub_diag, skipn_0. Qed.

(** The two ways [add_toast_import] returns: the text as it is, or the text
    cut after a semicolon that ends a line, with the new line put in. *)
Lemma add_toast_import_cases (content : str) :
  ((contains (cp "import { toast }") content
    || contains (cp "import toast") content = true
    \/ finditer_import content = [])
   /\ add_toast_import content = content)
  \/ (contains (cp "import { toast }") content = false
      /\ contains (cp "import toast") content = false
      /\ finditer_import content <> []
      /\ exists a b,
           content = a ++ b
           /\ add_toast_import content = a ++ toast_import ++ b
           /\ last a 0%N = 59%N
           /\ at_eol b = true).
Proof.
  unfold add_toast_import.
  destruct (contains (cp "import { toast }") content
            || contains (cp "import toast") content) eqn:Hsp.
  - left. split; [now left | reflexivity].
  - destruct (finditer_import content) as [|sp sps] eqn:Him.
    + left. split; [now right | reflexivity].
    + right. apply orb_false_elim in Hsp as [H1 H2].
      split; [exact H1|]. split; [exact H2|]. split; [discriminate|].
      destruct (finditer_import_sound content) as [Hall _].
      rewrite Him in Hall. rewrite Forall_forall in Hall.
      destruct (Hall (last (sp :: sps) (0, 0)))
        as [(a & m & b & E & Ha & He & _ & Hs & _ & Hl & Hb) Hn].
      { apply last_in. discriminate. }
      exists (a ++ m), b. rewrite <- He, <- length_app.
      rewrite E at 1 2 3. rewrite app_assoc.
      rewrite firstn_app_exact, skipn_app_exact.
      split; [reflexivity|]. split; [reflexivity|]. split; [|exact Hb].
      apply starts_with_split in Hs as [t ->].
      rewrite last_app_r; [exact Hl | discriminate].
Qed.

(** X1. [add_toast_import] is idempotent on every text: what it returns
    already has the toast import or has no import statement to put it
    after. *)
Theorem X1_add_toast_import_idempotent (content : str) :
  add_toast_import (add_toast_import content) = add_toast_import content.
Proof.
  destruct (add_toast_import_cases content)
    as [[_ E] | (_ & _ & _ & a & b & _ & E & _)].
  - now rewrite !E.
  - rewrite E. unfold add_toast_import at 1.
    replace (a ++ toast_import ++ b)
      with ((a ++ [nl]) ++ cp "import { toast }"
              ++ (cp " from '../shared/utils/toast';" ++ b))
      by (now rewrite <- !app_assoc).
    now rewrite contains_app.
Qed.

(** X2. After [add_toast_import] the text contains [import { toast }]
    exactly when it did before or when it had neither spelling and the
    pattern found an import statement; and the result is the text itself or
    is longer by the 47 code points of the new line and its line break. *)
Theorem X2_add_toast_import_result (content : str) :
  (contains (cp "import { toast }") (add_toast_import content) = true
   <-> contains (cp "import { toast }") content = true
       \/ (contains (cp "import toast") content = false
           /\ finditer_import content <> []))
  /\ (add_toast_import content = content
      \/ length (add_toast_import content) = length content + 47).
Proof.
  destruct (add_toast_import_cases content)
    as [[Hc E] | (H1 & H2 & Him & a & b & Ec & E & _)].
  - rewrite E. split; [|now left]. split; [now left|].
    intros [Hs | [H2 Him]]; [exact Hs|].
    destruct Hc as [Hc | Hc]; [|contradiction].
    rewrite H2, orb_false_r in Hc. exact Hc.
  - split.
    + split; [intros _; right; now split|]. intros _. rewrite E.
      replace (a ++ toast_import ++ b)
        with ((a ++ [nl]) ++ cp "import { toast }"
                ++ (cp " from '../shared/utils/toast';" ++ b))
        by (now rewrite <- !app_assoc).
      apply contains_app.
    + right. rewrite E, Ec, !length_app.
      change (length toast_import) with 47. lia.
Qed.

(** A line break cuts the lines of a text in two. *)
Lemma split_nl_app_nl (a b : str) :
  split_nl (a ++ nl :: b) = split_nl a ++ split_nl b.
Proof.
  induction a as [|c a IH]; [reflexivity|].
  cbn [app split_nl]. rewrite IH. destruct (is_nl c); [reflexivity|].
  pose proof (split_nl_not_nil a) as Hne.
  destruct (split_nl a) as [|l ls]; [contradiction | reflexivity].
Qed.

(** The last line of a text that does not end with a line break ends as
    the text does. *)
Lemma last_line_last (a : str) (d : char) :
  a <> [] -> is_nl (last a d) = false ->
  last (last (split_nl a) []) d = last a d.
Proof.
  induction a as [|c a IH]; intros Ha Hl; [contradiction|].
  destruct a as [|c' a].
  - cbn [split_nl last] in *. rewrite Hl. reflexivity.
  - change (last (c :: c' :: a) d) with (last (c' :: a) d) in *.
    specialize (IH ltac:(discriminate) Hl).
    pose proof (split_nl_not_nil (c' :: a)) as Hne.
    change (split_nl (c :: c' :: a))
      with (if is_nl c then [] :: split_nl (c' :: a)
            else match split_nl (c' :: a) with
                 | l :: ls => (c :: l) :: ls
                 | [] => [[c]]
                 end).
    destruct (split_nl (c' :: a)) as [|l ls] eqn:Es; [contradiction|].
    destruct (is_nl c); [exact IH|].
    destruct ls as [|l' ls]; [|exact IH].
    cbn [last] in IH |- *.
    destruct l as [|x l]; [|exact IH].
    pose proof (join_split_nl (c' :: a)) as Ej. rewrite Es in Ej.
    discriminate Ej.
Qed.

(** The new import line always goes between two lines of the text. *)
Lemma add_toast_import_lines (content : str) :
  add_toast_import content <> content ->
  exists before after,
    split_nl content = before ++ after
    /\ split_nl (add_toast_import content)
       = before ++ toast_import_line :: after
    /\ last (last before []) 0%N = 59%N.
Proof.
  intros Hne.
  destruct (add_toast_import_cases content)
    as [[_ E] | (_ & _ & _ & a & b & Ec & E & Hl & Hb)]; [contradiction|].
  assert (Hline : split_nl toast_import_line = [toast_import_line]).
  { apply split_nl_line. vm_compute. intuition discriminate. }
  assert (Ha : a <> []) by (intros ->; discriminate Hl).
  assert (Hlast : last (last (split_nl a) []) 0%N = 59%N).
  { rewrite last_line_last; [exact Hl | exact Ha | now rewrite Hl]. }
  rewrite E, Ec. unfold toast_import. destruct b as [|c b].
  - exists (split_nl a), []. rewrite !app_nil_r.
    split; [reflexivity|]. split; [|exact Hlast].
    cbn [app]. rewrite split_nl_app_nl, Hline. reflexivity.
  - cbn [at_eol] in Hb. apply N.eqb_eq in Hb; subst c.
    exists (split_nl a), (split_nl b).
    split; [apply split_nl_app_nl|]. split; [|exact Hlast].
    cbn [app]. rewrite split_nl_app_nl, split_nl_app_nl, Hline. reflexivity.
Qed.

(** X3. Whenever [add_toast_import] changes a text, it puts the one new
    line between two of its lines, or after the last, and after a line that
    ends with a semicolon; every line of the text is kept, in its place. *)
Theorem X3_import_line_between_lines (content : str) :
  add_toast_import content <> content ->
  exists before after,
    split_nl content = before ++ after
    /\ split_nl (add_toast_import content)
       = before ++ toast_import_line :: after
    /\ last (last before []) 0%N = 59%N.
Proof. apply add_toast_import_lines. Qed.

(** X3 on a text whose last import statement runs over two lines. *)
Lemma X3_import_line_between_lines_witness :
  exists before after,
    split_nl (cp "import a;" ++ nl :: cp "import" ++ nl :: cp "'b';"
                ++ nl :: cp "f();")
    = before ++ after
    /\ split_nl (add_toast_import
                   (cp "import a;" ++ nl :: cp "import" ++ nl :: cp "'b';"
                      ++ nl :: cp "f();"))
       = before ++ toast_import_line :: after
    /\ last (last before []) 0%N = 59%N.
Proof.
  apply (X3_import_line_between_lines
           (cp "import a;" ++ nl :: cp "import" ++ nl :: cp "'b';"
              ++ nl :: cp "f();")).
  vm_compute. discriminate.
Defined.

(* ================================================================= *)
(** ** callSiteReplace on any text *)

(** What a text does not contain, none of its lines contains. *)
Lemma contains_false_line (p content l : str) :
  contains p content = false -> In l (split_nl content) ->
  contains p l = false.
Proof.
  intros Hc Hin. apply in_join_nl in Hin as (pre & post & E).
  rewrite join_split_nl in E. rewrite E in Hc.
  destruct (contains p l) eqn:Hl; [|reflexivity].
  apply contains_split in Hl as (x & y & ->).
  replace (pre ++ (x ++ p ++ y) ++ post)
    with ((pre ++ x) ++ p ++ (y ++ post)) in Hc
    by (now rewrite <- !app_assoc).
  rewrite contains_app in Hc. discriminate.
Qed.

(** X5. A text with no [alert(] comes back from [replace_alerts] code
    point for code point, line breaks at the end included; and in any text
    a line with no [alert(], or with the comment guard, is in the output as
    it was, at its place. *)
Theorem X5_lines_without_alert_kept (content : str) :
  (contains (cp "alert(") content = false -> replace_alerts content = content)
  /\ (forall i l,
        nth_error (split_nl content) i = Some l ->
        contains (cp "alert(") l = false
        \/ contains (cp "// alert(") l = true ->
        nth_error (split_nl (replace_alerts content)) i = Some l).
Proof.
  split.
  - intros Hc. unfold replace_alerts.
    rewrite <- (join_split_nl content) at 2. f_equal.
    rewrite <- (map_id (split_nl content)) at 2.
    apply map_ext_in. intros l Hl.
    apply replace_alerts_line_no_alert.
    exact (contains_false_line _ _ _ Hc Hl).
  - intros i l Hi Hl. rewrite split_replace_alerts, nth_error_map, Hi.
    cbn [option_map]. f_equal.
    destruct Hl as [Hl|Hl];
      [now apply replace_alerts_line_no_alert
      | now apply replace_alerts_line_comment].
Qed.

(** X5 on a text that ends with two line breaks, and on the commented line
    of a text of four lines. *)
Lemma X5_lines_without_alert_kept_witness :
  replace_alerts (cp "const a = 1;" ++ nl :: cp "f(a);" ++ [nl; nl])
  = cp "const a = 1;" ++ nl :: cp "f(a);" ++ [nl; nl]
  /\ nth_error (split_nl (replace_alerts Samples.four_lines)) 1
     = Some (cp "  // alert('debug');").
Proof.
  split.
  - apply (X5_lines_without_alert_kept
             (cp "const a = 1;" ++ nl :: cp "f(a);" ++ [nl; nl])).
    reflexivity.
  - destruct (X5_lines_without_alert_kept Samples.four_lines) as [_ H].
    apply H; [reflexivity | right; reflexivity].
Defined.

(** ** The message the pattern extracts *)

Lemma lazy_to_rparen_sound (s m : str) :
  lazy_to_rparen s = Some m ->
  exists post, s = m ++ 41%N :: post /\ ~ In 41%N m /\ ~ In nl m.
Proof.
  revert m; induction s as [|c s IH]; intros m Hm; [discriminate|].
  cbn [lazy_to_rparen] in Hm.
  destruct (N.eqb_spec c 41) as [->|Hc].
  - injection Hm as <-. exists s. now repeat split.
  - unfold is_nl in Hm. destruct (N.eqb_spec c nl) as [->|Hn]; [discriminate|].
    destruct (lazy_to_rparen s) as [m'|]; [|discriminate].
    injection Hm as <-. destruct (IH _ eq_refl) as (post & -> & H1 & H2).
    exists post. split; [reflexivity|].
    split; intros [E|Hin]; congruence || tauto.
Qed.

Lemma lazy_to_rparen_app (m post : str) :
  ~ In 41%N m -> ~ In nl m -> lazy_to_rparen (m ++ 41%N :: post) = Some m.
Proof.
  induction m as [|c m IH]; intros H1 H2; [reflexivity|].
  cbn [app lazy_to_rparen].
  destruct (N.eqb_spec c 41) as [->|Hc]; [exfalso; apply H1; now left|].
  rewrite (is_nl_false_in c m H2).
  rewrite IH; [reflexivity | |]; intros Hin; [apply H1 | apply H2]; now right.
Qed.

(** X6. On a line, the pattern finds the message [m] exactly when the line
    reads [alert(], then [m], then a closing parenthesis at the first place
    where [alert(] occurs, and [m] has no closing parenthesis: the message
    is the text from the first [alert(] up to the first closing parenthesis
    after it. *)
Theorem X6_search_alert_iff (line m : str) :
  ~ In nl line ->
  (search_alert line = Some m
   <-> exists pre post,
         line = pre ++ cp "alert(" ++ m ++ cp ")" ++ post
         /\ none_starts_in (cp "alert(") pre
              (cp "alert(" ++ m ++ cp ")" ++ post) = true
         /\ ~ In 41%N m).
Proof.
  intros Hl. split.
  - intros Hm.
    destruct (contains (cp "alert(") line) eqn:Ha;
      [|rewrite search_alert_absent in Hm by exact Ha; discriminate].
    apply first_occurrence in Ha as (pre & rest & -> & Hn).
    rewrite (search_alert_first pre rest Hn) in Hm.
    destruct (lazy_to_rparen rest) as [m'|] eqn:Hr.
    + injection Hm as ->.
      apply lazy_to_rparen_sound in Hr as (post & -> & H1 & _).
      now exists pre, post.
    + exfalso. rewrite search_alert_no_rparen in Hm; [discriminate|].
      intros Hin. apply in_app_or in Hin as [Hin|Hin];
        [vm_compute in Hin; intuition discriminate|].
      destruct (lazy_to_rparen_some rest) as [x Hx]; [|exact Hin|congruence].
      intros Hnl. apply Hl. apply in_or_app; right. apply in_or_app; now right.
  - intros (pre & post & -> & Hn & H1).
    rewrite (search_alert_first pre _ Hn).
    change (cp ")" ++ post) with (41%N :: post).
    rewrite lazy_to_rparen_app; [reflexivity | exact H1|].
    intros Hin. apply Hl. apply in_or_app; right. apply in_or_app; right.
    apply in_or_app; now left.
Qed.

(** X6 on a call whose argument has parentheses of its own: the message
    stops at the first of them that closes. *)
Lemma X6_search_alert_iff_witness :
  search_alert (cp "if (e) alert(fmt(e) + '!'); else alert(1);")
  = Some (cp "fmt(e").
Proof.
  apply (X6_search_alert_iff
           (cp "if (e) alert(fmt(e) + '!'); else alert(1);") (cp "fmt(e")).
  - vm_compute. intuition discriminate.
  - exists (cp "if (e) "), (cp " + '!'); else alert(1);").
    split; [reflexivity|]. split; [reflexivity|].
    vm_compute. intuition discriminate.
Defined.

(** ** callSiteReplace and the lines of a text *)

(** X7. [replace_alerts] works on each line by itself: the output for two
    texts joined by a line break is the two outputs joined by a line
    break. *)
Theorem X7_replace_alerts_by_line (a b : str) :
  replace_alerts (a ++ nl :: b) = replace_alerts a ++ nl :: replace_alerts b.
Proof.
  unfold replace_alerts. rewrite split_nl_app_nl, map_app, join_nl_app.
  - pose proof (split_nl_not_nil b) as Hb.
    destruct (split_nl b) as [|l ls]; [contradiction | reflexivity].
  - pose proof (split_nl_not_nil a) as Ha.
    destruct (split_nl a); [contradiction | discriminate].
Qed.

(** ** The text never gets shorter *)

Lemma replace_go_length (a : char) (old new s : str) (k : nat) :
  length (a :: old) <= length new ->
  length s <= length (replace_go (a :: old) new k s) + k.
Proof.
  intros Hlen. revert k. induction s as [|c s IH]; intros k; [cbn; lia|].
  cbn [replace_go]. destruct k as [|k].
  - destruct (starts_with (a :: old) (c :: s)).
    + specialize (IH (length (a :: old) - 1)).
      rewrite length_app. cbn [length] in *. lia.
    + specialize (IH 0). cbn [length]. lia.
  - specialize (IH k). cbn [length]. lia.
Qed.

Lemma replace_alerts_line_length (line : str) :
  length line <= length (replace_alerts_line line).
Proof.
  rewrite replace_alerts_line_classify.
  destruct (_ && _); [|lia].
  destruct (search_alert line) as [m|]; [|lia].
  change (alert_call m) with (97%N :: (cp "lert(" ++ m ++ cp ")")).
  unfold replace.
  pose proof (replace_go_length 97%N (cp "lert(" ++ m ++ cp ")")
                (toast_call (classify line) m) line 0) as H.
  rewrite Nat.add_0_r in H. apply H.
  unfold toast_call. cbn [length]. rewrite !length_app.
  destruct (classify line); cbn [length severity_name cp map
    list_ascii_of_string]; lia.
Qed.

Lemma join_nl_length_map (f : str -> str) (ls : list str) :
  (forall l, length l <= length (f l)) ->
  length (join_nl ls) <= length (join_nl (map f ls)).
Proof.
  intros Hf. induction ls as [|l ls IH]; [cbn; lia|].
  destruct ls as [|l' ls]; [apply Hf|].
  change (join_nl (l :: l' :: ls)) with (l ++ nl :: join_nl (l' :: ls)).
  change (join_nl (map f (l :: l' :: ls)))
    with (f l ++ nl :: join_nl (map f (l' :: ls))).
  rewrite !length_app. cbn [length]. specialize (Hf l). lia.
Qed.

(** X8. Neither step ever shortens a text: the output of
    [add_toast_import], of [replace_alerts], and of the two in the order in
    which [process_file] runs them has at least as many code points as the
    input. *)
Theorem X8_never_shorter (content : str) :
  length content <= length (add_toast_import content)
  /\ length content <= length (replace_alerts content)
  /\ length content <= length (replace_alerts (add_toast_import content)).
Proof.
  assert (Hr : forall c, length c <= length (replace_alerts c)).
  { intros c. unfold replace_alerts.
    rewrite <- (join_split_nl c) at 1.
    apply join_nl_length_map, replace_alerts_line_length. }
  assert (Ha : length content <= length (add_toast_import content)).
  { destruct (add_toast_import_cases content)
      as [[_ E] | (_ & _ & _ & a & b & Ec & E & _)]; rewrite E; [lia|].
    rewrite Ec, !length_app. lia. }
  split; [exact Ha|]. split; [apply Hr|].
  specialize (Hr (add_toast_import content)). lia.
Qed.

(* ================================================================= *)
(** ** The two steps together *)

Lemma replace_alerts_line_toast_import :
  replace_alerts_line toast_import_line = toast_import_line.
Proof. reflexivity. Qed.

(** X9. When [add_toast_import] puts the import line in, [replace_alerts]
    run after it leaves that line as it is and rewrites every other line
    exactly as it does without the import step: the output of the two steps
    is the output of [replace_alerts] alone with the import line put
    between two of its lines. *)
Theorem X9_steps_compose_by_line (content : str) :
  add_toast_import content <> content ->
  exists before after,
    split_nl content = before ++ after
    /\ split_nl (replace_alerts content)
       = map replace_alerts_line before ++ map replace_alerts_line after
    /\ split_nl (replace_alerts (add_toast_import content))
       = map replace_alerts_line before
           ++ toast_import_line :: map replace_alerts_line after.
Proof.
  intros Hne.
  destruct (add_toast_import_lines content Hne)
    as (before & after & E1 & E2 & _).
  exists before, after. split; [exact E1|].
  rewrite !split_replace_alerts, E1, E2, !map_app. cbn [map].
  now rewrite replace_alerts_line_toast_import.
Qed.

(** X9 on a file with an import, a call to rewrite and a line of code. *)
Lemma X9_steps_compose_by_line_witness :
  exists before after,
    split_nl (cp "import a from 'a';" ++ nl :: cp "alert('Saved');"
                ++ nl :: cp "f();")
    = before ++ after
    /\ split_nl (replace_alerts
                   (cp "import a from 'a';" ++ nl :: cp "alert('Saved');"
                      ++ nl :: cp "f();"))
       = map replace_alerts_line before ++ map replace_alerts_line after
    /\ split_nl (replace_alerts
                   (add_toast_import
                      (cp "import a from 'a';" ++ nl :: cp "alert('Saved');"
                         ++ nl :: cp "f();")))
       = map replace_alerts_line before
           ++ toast_import_line :: map replace_alerts_line after.
Proof.
  apply (X9_steps_compose_by_line
           (cp "import a from 'a';" ++ nl :: cp "alert('Saved');"
              ++ nl :: cp "f();")).
  vm_compute. discriminate.
Defined.

Section ScriptMoreFacts.

Context {fs : Type} `{FileSystem fs}.

(** X10. On a file that already has a toast import and no [alert(],
    [process_file] writes back the very text it read: the outcome is that
    of writing the text read, processed when the write succeeds and an
    error with the write's message when it raises. *)
Theorem X10_converted_file_written_back (filepath content : str) (disk : fs) :
  read_text filepath disk = Ok content ->
  contains (cp "import { toast }") content = true
  \/ contains (cp "import toast") content = true ->
  contains (cp "alert(") content = false ->
  process_file filepath disk
  = match write_text filepath content disk with
    | (disk', Ok _) => (disk', [msg_processed filepath], true)
    | (disk', Raise e) => (disk', [msg_error filepath e], false)
    end.
Proof.
  intros Hr Hs Ha. unfold process_file, process_file_with. rewrite Hr.
  assert (E1 : add_toast_import content = content).
  { unfold add_toast_import. destruct Hs as [-> | ->];
      [reflexivity | now rewrite orb_true_r]. }
  assert (E2 : replace_alerts content = content).
  { unfold replace_alerts.
    rewrite <- (join_split_nl content) at 2. f_equal.
    rewrite <- (map_id (split_nl content)) at 2.
    apply map_ext_in. intros l Hl.
    apply replace_alerts_line_no_alert.
    exact (contains_false_line _ _ _ Ha Hl). }
  rewrite E1, E2. reflexivity.
Qed.

End ScriptMoreFacts.

(* ================================================================= *)
(** ** Running the two steps again *)

(** The rewriting settles a text with at most one [alert(] on a line. *)
Lemma replace_alerts_idem_lines (content : str) :
  Forall (fun line => occurrences (cp "alert(") line <= 1) (split_nl content) ->
  replace_alerts (replace_alerts content) = replace_alerts content.
Proof.
  intros Hall. unfold replace_alerts at 1. rewrite split_replace_alerts.
  unfold replace_alerts. f_equal. rewrite map_map.
  apply map_ext_in. intros l Hl. apply replace_alerts_line_idem.
  rewrite Forall_forall in Hall. now apply Hall.
Qed.

(** A needle with no line break that begins before a line break is within
    the text before it. *)
Lemma starts_with_before_nl (p x y : str) :
  ~ In nl p -> starts_with p (x ++ nl :: y) = true -> starts_with p x = true.
Proof.
  revert x. induction p as [|a p IH]; intros x Hp Hs; [reflexivity|].
  destruct x as [|c x].
  - cbn [app starts_with] in Hs. apply andb_prop in Hs as [Hs _].
    apply N.eqb_eq in Hs. exfalso. apply Hp. now left.
  - cbn [app starts_with] in Hs |- *. apply andb_prop in Hs as [-> Hs].
    apply IH; [|exact Hs]. intros Hin. apply Hp. now right.
Qed.

Lemma contains_across_nl (p x y : str) :
  p <> [] -> ~ In nl p -> contains p (x ++ nl :: y) = true ->
  contains p x = true \/ contains p y = true.
Proof.
  intros Hne Hp. induction x as [|c x IH]; intros Hc.
  - cbn [app contains] in Hc. apply orb_prop in Hc as [Hc|Hc]; [|now right].
    apply (starts_with_before_nl p [] y Hp) in Hc.
    apply starts_with_nil in Hc. contradiction.
  - cbn [app contains] in Hc. apply orb_prop in Hc as [Hc|Hc].
    + left. apply contains_starts.
      exact (starts_with_before_nl p (c :: x) y Hp Hc).
    + destruct (IH Hc) as [Hx|Hy]; [left | now right].
      cbn [contains]. rewrite Hx. apply orb_true_r.
Qed.

(** A needle with no line break that a text contains is on one of its
    lines. *)
Lemma contains_on_a_line (p : str) (ls : list str) :
  p <> [] -> ~ In nl p -> contains p (join_nl ls) = true ->
  exists l, In l ls /\ contains p l = true.
Proof.
  intros Hne Hp. induction ls as [|l ls IH]; intros Hc.
  - cbn in Hc. apply starts_with_nil in Hc. contradiction.
  - destruct ls as [|l' ls].
    + exists l. split; [now left | exact Hc].
    + change (join_nl (l :: l' :: ls)) with (l ++ nl :: join_nl (l' :: ls)) in Hc.
      apply contains_across_nl in Hc as [Hc|Hc]; auto.
      * exists l. split; [now left | exact Hc].
      * destruct (IH Hc) as (x & Hin & Hx). exists x. split; [now right | exact Hx].
Qed.

(** The two spellings of the toast import. *)
Lemma spelling_straddle (v : severity) (sp u y z : str) :
  sp = cp "import { toast }" \/ sp = cp "import toast" ->
  u <> [] ->
  starts_with sp (u ++ cp "alert(" ++ z) = true ->
  starts_with sp (u ++ cp "toast." ++ severity_name v ++ cp "(" ++ y) = true.
Proof.
  intros [-> | ->] Hu;
    destruct u as [|c1 [|c2 [|c3 [|c4 [|c5 [|c6 [|c7 [|c8 [|c9 [|c10 [|c11
                  [|c12 [|c13 [|c14 [|c15 [|c16 u]]]]]]]]]]]]]]]];
    try contradiction; destruct v; simpl; rewrite ?andb_false_r;
    try discriminate; auto.
Qed.

(** Where [alert(] becomes a toast call, a spelling of the toast import
    on the line stays on the line. *)
Lemma spelling_kept (v : severity) (sp pre rest : str) :
  sp = cp "import { toast }" \/ sp = cp "import toast" ->
  contains sp (pre ++ cp "alert(" ++ rest) = true ->
  contains sp (pre ++ cp "toast." ++ severity_name v ++ cp "(" ++ rest) = true.
Proof.
  intros Hsp. induction pre as [|c pre IH]; intros Hc.
  - assert (Hr : contains sp rest = true).
    { destruct Hsp as [-> | ->]; exact Hc. }
    apply contains_split in Hr as (x & y & ->).
    replace ([] ++ cp "toast." ++ severity_name v ++ cp "(" ++ x ++ sp ++ y)
      with ((cp "toast." ++ severity_name v ++ cp "(" ++ x) ++ sp ++ y)
      by (now rewrite <- !app_assoc).
    apply contains_app.
  - cbn [app contains] in Hc |- *. apply orb_prop in Hc as [Hc|Hc].
    + pose proof (spelling_straddle v sp (c :: pre) rest rest Hsp
                    ltac:(discriminate) Hc) as Hs.
      cbn [app] in Hs. rewrite Hs. reflexivity.
    + rewrite (IH Hc). apply orb_true_r.
Qed.

Lemma spelling_kept_line (sp line : str) :
  sp = cp "import { toast }" \/ sp = cp "import toast" ->
  occurrences (cp "alert(") line <= 1 ->
  contains sp line = true ->
  contains sp (replace_alerts_line line) = true.
Proof.
  intros Hsp Ho Hc.
  destruct (contains (cp "alert(") line) eqn:Ha;
    [|now rewrite (replace_alerts_line_no_alert _ Ha)].
  destruct (contains (cp "// alert(") line) eqn:Hg;
    [now rewrite (replace_alerts_line_comment _ Hg)|].
  destruct (search_alert line) as [m|] eqn:Hm;
    [|now rewrite (replace_alerts_line_no_match _ Hm)].
  assert (Ho1 : occurrences (cp "alert(") line = 1).
  { apply occurrences_pos in Ha. lia. }
  apply contains_split in Ha as (pre & rest & ->).
  rewrite (search_alert_single pre rest Ho1) in Hm.
  rewrite (replace_alerts_line_single pre rest m Ho1 Hg Hm).
  now apply spelling_kept.
Qed.

(** In a text with at most one [alert(] on a line, the rewriting keeps a
    spelling of the toast import. *)
Lemma spelling_kept_text (sp content : str) :
  sp = cp "import { toast }" \/ sp = cp "import toast" ->
  Forall (fun line => occurrences (cp "alert(") line <= 1) (split_nl content) ->
  contains sp content = true ->
  contains sp (replace_alerts content) = true.
Proof.
  intros Hsp Hall Hc.
  assert (Hne : sp <> []) by (destruct Hsp as [-> | ->]; discriminate).
  assert (Hnl : ~ In nl sp)
    by (destruct Hsp as [-> | ->]; vm_compute; intuition discriminate).
  rewrite <- (join_split_nl content) in Hc.
  apply contains_on_a_line in Hc as (l & Hin & Hl); auto.
  rewrite Forall_forall in Hall.
  pose proof (spelling_kept_line sp l Hsp (Hall l Hin) Hl) as Hk.
  apply contains_split in Hk as (x & y & E).
  destruct (in_join_nl (replace_alerts_line l)
              (map replace_alerts_line (split_nl content)))
    as (pre & post & Ej); [now apply in_map|].
  unfold replace_alerts. rewrite Ej, E.
  replace (pre ++ (x ++ sp ++ y) ++ post)
    with ((pre ++ x) ++ sp ++ (y ++ post)) by (now rewrite <- !app_assoc).
  apply contains_app.
Qed.

Lemma add_toast_import_spelled (content : str) :
  contains (cp "import { toast }") content
  || contains (cp "import toast") content = true ->
  add_toast_import content = content.
Proof. unfold add_toast_import. now intros ->. Qed.

(** The lines of the text with the import line have no more [alert(] than
    the lines of the text. *)
Lemma add_toast_import_one_alert (content : str) :
  Forall (fun line => occurrences (cp "alert(") line <= 1) (split_nl content) ->
  Forall (fun line => occurrences (cp "alert(") line <= 1)
    (split_nl (add_toast_import content)).
Proof.
  intros Hall.
  destruct (list_eq_dec N.eq_dec (add_toast_import content) content)
    as [E|Hne]; [now rewrite E|].
  destruct (add_toast_import_lines content Hne)
    as (before & after & E1 & E2 & _).
  rewrite E1 in Hall. apply Forall_app in Hall as [Hb Ha].
  rewrite E2. apply Forall_app. split; [exact Hb|].
  constructor; [|exact Ha]. vm_compute. repeat constructor.
Qed.

(** X11. Running the two steps of [process_file] again on their own output
    changes nothing, for every text with at most one [alert(] on a line
    that has a spelling of the toast import or an import statement for the
    pattern to find: the output has the toast import, so no second line is
    put in, and no line is rewritten twice. *)
Theorem X11_steps_idempotent (content : str) :
  Forall (fun line => occurrences (cp "alert(") line <= 1) (split_nl content) ->
  contains (cp "import { toast }") content
  || contains (cp "import toast") content = true
  \/ finditer_import content <> [] ->
  let output := replace_alerts (add_toast_import content) in
  contains (cp "import { toast }") output
  || contains (cp "import toast") output = true
  /\ add_toast_import output = output
  /\ replace_alerts (add_toast_import output) = output.
Proof.
  intros Hall Himp output.
  pose proof (add_toast_import_one_alert content Hall) as Hall'.
  assert (Hsp : contains (cp "import { toast }") (add_toast_import content)
                || contains (cp "import toast") (add_toast_import content)
                = true).
  { destruct (add_toast_import_cases content)
      as [[Hc E] | (_ & _ & _ & a & b & _ & E & _)].
    - rewrite E. destruct Himp as [Hs|Hf]; [exact Hs|].
      destruct Hc as [Hs|Hn]; [exact Hs | contradiction].
    - rewrite E. apply orb_true_iff. left.
      replace (a ++ toast_import ++ b)
        with ((a ++ [nl]) ++ cp "import { toast }"
                ++ (cp " from '../shared/utils/toast';" ++ b))
        by (now rewrite <- !app_assoc).
      apply contains_app. }
  assert (Hout : contains (cp "import { toast }") output
                 || contains (cp "import toast") output = true).
  { apply orb_true_iff. apply orb_true_iff in Hsp as [Hs|Hs]; [left|right];
      apply spelling_kept_text; auto. }
  split; [exact Hout|].
  pose proof (add_toast_import_spelled output Hout) as E.
  split; [exact E|]. rewrite E.
  apply replace_alerts_idem_lines, Hall'.
Qed.

(** X11 on a file with an import, a commented call and two calls. *)
Lemma X11_steps_idempotent_witness :
  let content :=
    cp "import a from 'a';" ++ nl :: Samples.four_lines in
  let output := replace_alerts (add_toast_import content) in
  contains (cp "import { toast }") output
  || contains (cp "import toast") output = true
  /\ add_toast_import output = output
  /\ replace_alerts (add_toast_import output) = output.
Proof.
  apply (X11_steps_idempotent
           (cp "import a from 'a';" ++ nl :: Samples.four_lines)).
  - vm_compute. repeat constructor.
  - right. vm_compute. discriminate.
Defined.

(** X10 on the disk with a file already converted: the file is written
    back as it was and reported as processed. *)
Lemma X10_converted_file_written_back_witness :
  process_file (cp "done.tsx") MoreSamples.converted
  = (MoreSamples.converted, [msg_processed (cp "done.tsx")], true).
Proof.
  rewrite (X10_converted_file_written_back (cp "done.tsx")
             (toast_import_line ++ nl :: cp "toast.info('x');")
             MoreSamples.converted).
  - reflexivity.
  - reflexivity.
  - left. reflexivity.
  - reflexivity.
Defined.

(* ================================================================= *)
(** ** The key words are read without regard to case *)

Lemma lower_char_ascii_upper (c : char) :
  lower_char (ascii_upper_char c) = lower_char c.
Proof.
  unfold ascii_upper_char, lower_char.
  destruct (N.leb_spec 97 c) as [H1|H1]; cbn [andb];
    [destruct (N.leb_spec c 122) as [H2|H2]|].
  - destruct (N.leb_spec 65 (c - 32)) as [H3|H3]; [|lia].
    destruct (N.leb_spec (c - 32) 90) as [H4|H4]; [|lia]. cbn [andb].
    destruct (N.leb_spec 65 c) as [H5|H5]; [|lia].
    destruct (N.leb_spec c 90) as [H6|H6]; [lia|]. cbn [andb].
    destruct (N.eqb_spec c 304) as [->|_]; [lia|].
    destruct (N.eqb_spec c 8490) as [->|_]; [lia|].
    assert (E : (c - 32 + 32 = c)%N) by lia. now rewrite E.
  - reflexivity.
  - reflexivity.
Qed.

Lemma lower_ascii_upper (line : str) :
  lower (map ascii_upper_char line) = lower line.
Proof.
  unfold lower. induction line as [|c line IH]; [reflexivity|].
  cbn [map flat_map]. now rewrite lower_char_ascii_upper, IH.
Qed.

(** X12. The severity of a line does not depend on the case of its ASCII
    letters: with every small ASCII letter made a capital, the line has the
    same success and error key words and the same severity. *)
Theorem X12_severity_ignores_case (line : str) :
  is_success (map ascii_upper_char line) = is_success line
  /\ is_error (map ascii_upper_char line) = is_error line
  /\ classify (map ascii_upper_char line) = classify line.
Proof.
  unfold classify, is_success, is_error.
  rewrite lower_ascii_upper. repeat split.
Qed.
